(** * alice-lg: the birdwatcher parser, the routes store and the lookup API

    A shallow embedding of the Go sources
      - [backend/sources/birdwatcher] (parsers and helpers),
      - [backend] ([RoutesStore], the HTTP API helpers),
    together with the properties of the natural-language specification
    that concern them.

    Conventions of the embedding.
      - A Go [int] / [int64] is a [Z]; [time.Time] is the number of
        nanoseconds since the zero time (January 1, year 1, UTC), and
        [time.Duration] a number of nanoseconds saturated to 64 bits.
      - [interface{}] values decoded by [encoding/json] are the type
        [value]; a JSON number is a binary64 float.
      - A failed unchecked type assertion [x.(T)] panics: functions that
        contain one return an [outcome], either [Ret] or [Panic].
      - A function returning [(T, error)] returns a pair [T * option error].
      - [for k, v := range m] over a map visits the entries in an order the
        language leaves unspecified: such loops take a [range_order], and
        theorems quantify over every valid one. *)

From Stdlib Require Import ZArith String Ascii List Floats Lia.
From Stdlib Require OrderedTypeEx.
From stdpp Require Import base option list gmap strings sorting pretty.

Set Warnings "-register-all,-clear-no-such-hyp".

Local Open Scope Z_scope.

(* ===================================================================== *)
(** ** Go runtime: dynamically typed values, panics, errors               *)
(* ===================================================================== *)

(** What [encoding/json] stores in an [interface{}]. *)
Inductive value : Type :=
| VNull
| VBool (b : bool)
| VNumber (f : float)
| VString (s : string)
| VArray (l : list value)
| VObject (m : gmap string value).

(** The dynamic type of a value, as a type assertion sees it. *)
Inductive kind : Type :=
| KNil | KBool | KFloat64 | KString | KSlice | KMap.

Definition kind_of (v : value) : kind :=
  match v with
  | VNull => KNil
  | VBool _ => KBool
  | VNumber _ => KFloat64
  | VString _ => KString
  | VArray _ => KSlice
  | VObject _ => KMap
  end.

(** [*runtime.TypeAssertionError]: "interface conversion: interface {} is
    [concrete], not [asserted]". *)
Record TypeAssertionError : Type :=
  { concrete : kind; asserted : kind }.

Inductive outcome (A : Type) : Type :=
| Ret (a : A)
| Panic (e : TypeAssertionError).
Arguments Ret {A} a.
Arguments Panic {A} e.

#[global] Instance outcome_ret : MRet outcome := @Ret.
#[global] Instance outcome_bind : MBind outcome :=
  fun A B k o => match o with Ret a => k a | Panic e => Panic e end.

Definition returns {A} (o : outcome A) : Prop := exists a, o = Ret a.
Definition panics {A} (o : outcome A) : Prop := exists e, o = Panic e.

(** Values of the Go interface type [error]. *)
Inductive error : Type :=
| ErrSyntax (fn input : string)   (* strconv.NumError with ErrSyntax *)
| ErrRange (fn input : string)    (* strconv.NumError with ErrRange *)
| Errorf (msg : string)           (* fmt.Errorf *)
| ErrOther (msg : string).        (* errors of other packages *)

(** [m[k]] on a [map[string]interface{}]: the zero value [nil] when the
    key is absent. *)
Definition index (m : gmap string value) (k : string) : value :=
  default VNull (m !! k).

(** Unchecked type assertions [v.(T)]. *)
Definition assert_string (v : value) : outcome string :=
  match v with
  | VString s => Ret s
  | _ => Panic {| concrete := kind_of v; asserted := KString |}
  end.

Definition assert_float64 (v : value) : outcome float :=
  match v with
  | VNumber f => Ret f
  | _ => Panic {| concrete := kind_of v; asserted := KFloat64 |}
  end.

Definition assert_slice (v : value) : outcome (list value) :=
  match v with
  | VArray l => Ret l
  | _ => Panic {| concrete := kind_of v; asserted := KSlice |}
  end.

Definition assert_map (v : value) : outcome (gmap string value) :=
  match v with
  | VObject m => Ret m
  | _ => Panic {| concrete := kind_of v; asserted := KMap |}
  end.

Definition assert_bool (v : value) : outcome bool :=
  match v with
  | VBool b => Ret b
  | _ => Panic {| concrete := kind_of v; asserted := KBool |}
  end.

(** [l[i]] on a slice; [None] stands for the runtime panic "index out of
    range". *)
Definition slice_index {A : Type} (l : list A) (i : Z) : option A :=
  if i <? 0 then None else l !! Z.to_nat i.

(** The pairs [for i, x := range l] visits, in order. *)
Definition slice_range {A : Type} (l : list A) : list (Z * A) :=
  imap (fun i x => (Z.of_nat i, x)) l.

(** Iteration order of [range] over a map. *)
Definition range_order (K V : Type) `{Countable K} : Type :=
  gmap K V -> list (K * V).

Definition range_valid {K V} `{Countable K} (rho : range_order K V) : Prop :=
  forall m, rho m ≡ₚ map_to_list m.

(** *** Integers *)

Definition maxInt64 : Z := 9223372036854775807.
Definition minInt64 : Z := -9223372036854775808.

(** [int(f)] for a float64 [f]: the fraction is discarded.  When the
    truncated value does not fit an [int] the language leaves the result
    to the implementation; amd64 yields the smallest integer. *)
Definition int_of_float64 (f : float) : Z :=
  match Prim2SF f with
  | S754_zero _ => 0
  | S754_finite s m e =>
      let a := Z.shiftl (Z.pos m) e in
      let z := if s then - a else a in
      if (minInt64 <=? z) && (z <=? maxInt64) then z else minInt64
  | S754_infinity _ | S754_nan => minInt64
  end.

(** [float64(n)] for an [int64] [n]. *)
Definition float64_of_int (n : Z) : float :=
  if n <? 0
  then PrimFloat.opp (PrimFloat.of_uint63 (Uint63.of_Z (- n)))
  else PrimFloat.of_uint63 (Uint63.of_Z n).

(** *** strconv.Atoi *)

Definition digit_of (c : ascii) : option Z :=
  let n := Z.of_N (N_of_ascii c) in
  if (48 <=? n) && (n <=? 57) then Some (n - 48) else None.

Fixpoint parse_digits (s : string) (acc : Z) : option Z :=
  match s with
  | EmptyString => Some acc
  | String c s' =>
      match digit_of c with
      | Some d => parse_digits s' (acc * 10 + d)
      | None => None
      end
  end.

(** An optional sign followed by the digits. *)
Definition split_sign (s : string) : bool * string :=
  match s with
  | String "-" r => (true, r)
  | String "+" r => (false, r)
  | _ => (false, s)
  end.

(** Base 10, 64-bit [int].  A syntax error gives 0, a value out of range
    gives the nearest representable integer, both with an error. *)
Definition strconv_Atoi (s : string) : Z * option error :=
  let '(neg, body) := split_sign s in
  match body with
  | EmptyString => (0, Some (ErrSyntax "Atoi" s))
  | _ =>
      match parse_digits body 0 with
      | None => (0, Some (ErrSyntax "Atoi" s))
      | Some n =>
          let v := if neg then - n else n in
          if v >? maxInt64 then (maxInt64, Some (ErrRange "Atoi" s))
          else if v <? minInt64 then (minInt64, Some (ErrRange "Atoi" s))
          else (v, None)
      end
  end.

(** A string is numeric when it is an optional sign and one or more
    decimal digits. *)
Definition numeric (s : string) : bool :=
  let '(_, body) := split_sign s in
  match body with
  | EmptyString => false
  | _ => bool_decide (is_Some (parse_digits body 0))
  end.

(** *** Package time *)

(** [time.Time] and [time.Duration] *)
Definition time_Time : Type := Z.
Definition time_Duration : Type := Z.

(** [time.Time{}] *)
Definition zero_time : time_Time := 0.

Definition maxDuration : time_Duration := maxInt64.
Definition minDuration : time_Duration := minInt64.

(** [t.Sub(u)]: the difference, or the largest (smallest) duration when it
    does not fit. *)
Definition time_Sub (t u : time_Time) : time_Duration :=
  let d := t - u in
  if d >? maxDuration then maxDuration
  else if d <? minDuration then minDuration
  else d.

(** [time.Since(t)] when the wall clock reads [now]. *)
Definition time_Since (now t : time_Time) : time_Duration := time_Sub now t.

(** The time zone database and the layout parser of package time. *)
Class TimeLib : Type :=
  { Location : Type;
    time_LoadLocation : string -> Location + error;
    time_ParseInLocation :
      string -> string -> Location -> time_Time * option error }.

(** *** Loops and package sort *)

(** [for _, x := range l { s = body(s, x) }] over a slice, where the body
    may panic. *)
Fixpoint for_range {A S : Type} (l : list A) (body : S -> A -> outcome S)
    (s : S) : outcome S :=
  match l with
  | [] => Ret s
  | x :: l' => s' ← body s x; for_range l' body s'
  end.

(** [append(l, x)] *)
Definition go_append {A : Type} (l : list A) (x : A) : list A := (l ++ [x])%list.

(** [sort.Sort]: the elements are rearranged with the type's [Less] until
    none is out of order; equal elements may be reordered by the real
    algorithm.  The model inserts the elements one by one. *)
Fixpoint sort_insert {A : Type} (less : A -> A -> bool) (x : A)
    (l : list A) : list A :=
  match l with
  | [] => [x]
  | y :: l' => if less y x then y :: sort_insert less x l' else x :: y :: l'
  end.

Definition sort_Sort {A : Type} (less : A -> A -> bool) (l : list A) : list A :=
  foldr (sort_insert less) [] l.

(** [a < b] on Go strings: bytewise lexicographic. *)
Definition string_lt (a b : string) : bool := String.ltb a b.

(* ===================================================================== *)
(** ** Package api: the domain model                                      *)
(* ===================================================================== *)

Module api.

(** The declarations of package api that the parsers and the store are
    written against are not part of the sources at hand.  The records
    below have the fields that the struct literals of the parsers fill and
    that the store reads, with the types of the expressions assigned to
    them. *)

Module BgpInfo.
(** Modelled from the spec: [api.BgpInfo] is not declared in the sources
    at hand; origin, AS path, next hop, local preference, MED and the two
    community sets, as [parseRouteBgpInfo] fills them. *)
Record t : Type :=
  { Origin : string;
    AsPath : list Z;
    NextHop : string;
    LocalPref : Z;
    Med : Z;
    Communities : list (list Z);
    LargeCommunities : list (list Z) }.
End BgpInfo.

Module Neighbour.
(** Modelled from the spec: [api.Neighbour] is not declared in the sources
    at hand; one BGP session, with the fields [parseNeighbours] fills. *)
Record t : Type :=
  { Id : string;
    Address : string;
    Asn : Z;
    State : string;
    Description : string;
    RoutesReceived : Z;
    RoutesFiltered : Z;
    RoutesExported : Z;
    RoutesPreferred : Z;
    Uptime : time_Duration;
    LastError : string;
    Details : gmap string value }.
End Neighbour.

Module Route.
(** Modelled from the spec: [api.Route] is not declared in the sources at
    hand; one routing table entry, with the fields [parseRoutes] fills. *)
Record t : Type :=
  { Id : string;
    NeighbourId : string;
    Network : string;
    Interface : string;
    Gateway : string;
    Metric : Z;
    Age : time_Duration;
    Type_ : list string;
    Bgp : BgpInfo.t;
    Details : gmap string value }.
End Route.

Module RoutesResponse.
(** Modelled from the spec: [api.RoutesResponse] is not declared in the
    sources at hand; the imported and the filtered routes of a full-table
    fetch, as [Stats] reads them. *)
Record t : Type :=
  { Imported : list Route.t;
    Filtered : list Route.t }.
End RoutesResponse.

(** Modelled from the spec: the [sort.Interface] of [api.Neighbours] is
    not part of the sources at hand.  Neighbours are ordered by their
    identifier. *)
Definition Neighbours_Less (a b : Neighbour.t) : bool :=
  string_lt (Neighbour.Id a) (Neighbour.Id b).

(** Modelled from the spec: the [sort.Interface] of [api.Routes] is not
    part of the sources at hand.  Routes are ordered by network, then by
    next hop. *)
Definition Routes_Less (a b : Route.t) : bool :=
  string_lt (Route.Network a) (Route.Network b)
  || (String.eqb (Route.Network a) (Route.Network b)
      && string_lt (Route.Gateway a) (Route.Gateway b)).

Module ApiStatus.
(** Modelled from the spec: the [api.ApiStatus] that [parseApiStatus]
    fills is not declared in the sources at hand; the protocol version
    the backend reports, whether the data came from its cache, and the
    freshness of the data. *)
Record t : Type :=
  { Version : string;
    ResultFromCache : bool;
    Ttl : time_Time }.
End ApiStatus.

Module Routeserver.
Record t : Type :=
  { Id : Z;
    Name : string }.
End Routeserver.

Module RouteserversResponse.
Record t : Type := { Routeservers : list Routeserver.t }.
End RouteserversResponse.

Module LookupRoute.
(** Modelled from the spec: [api.LookupRoute] is not part of the sources
    at hand.  A route found by a lookup, tagged with the name of the
    backend it comes from. *)
Record t : Type :=
  { Routeserver : string;
    Route_ : Route.t }.
End LookupRoute.

End api.

(* ===================================================================== *)
(** ** Package birdwatcher: parsers and helpers                           *)
(* ===================================================================== *)

Module birdwatcher.

(** The configuration of a birdwatcher source; the parsers read its
    [Timezone] only.  A [ClientResponse] is a [map[string]interface{}],
    here a [gmap string value]. *)
Record Config : Type := { Timezone : string }.

(** [time.RFC3339Nano] *)
Definition SERVER_TIME : string := "2006-01-02T15:04:05.999999999Z07:00".
Definition SERVER_TIME_SHORT : string := "2006-01-02 15:04:05".
Definition SERVER_TIME_EXT : string := "Mon, 2 Jan 2006 15:04:05 +0000".

(** [int(v.(float64))] *)
Definition int_float64 (v : value) : outcome Z :=
  f ← assert_float64 v; mret (int_of_float64 f).

(** Assert string, provide default *)
Definition mustString (v : value) (fallback : string) : string :=
  match v with
  | VString sval => sval
  | _ => fallback
  end.

(** Assert list of strings *)
Definition mustStringList (data : value) : outcome (list string) :=
  ldata ← assert_slice data;
  for_range ldata
    (fun lst e =>
       match e with
       | VString s => Ret (go_append lst s)
       | _ => Ret lst
       end) [].

(** Convert list of strings to int *)
Definition parseIntList (data : value) : outcome (list Z) :=
  sdata ← mustStringList data;
  for_range sdata
    (fun lst e => let '(val, _) := strconv_Atoi e in Ret (go_append lst val)) [].

(** Extract bgp communities from response *)
Definition parseBgpCommunities (data : value) : outcome (list (list Z)) :=
  match data with
  | VArray ldata =>
      for_range ldata
        (fun communities c =>
           cdata ← assert_slice c;
           community ←
             for_range cdata
               (fun community cinfo =>
                  n ← int_float64 cinfo; Ret (go_append community n)) [];
           Ret (go_append communities community)) []
  | _ => Ret []  (* We don't have any *)
  end.

(** Parse route bgp info *)
Definition parseRouteBgpInfo (data : value) : outcome api.BgpInfo.t :=
  bgpData ← assert_map data;
  asPath ← parseIntList (index bgpData "as_path");
  communities ← parseBgpCommunities (index bgpData "communities");
  largeCommunities ← parseBgpCommunities (index bgpData "large_communities");
  localPrefInfo ← assert_string (index bgpData "local_pref");
  let '(localPref, _) := strconv_Atoi localPrefInfo in
  let med :=
    match index bgpData "med" with
    | VString medInfo => fst (strconv_Atoi medInfo)
    | _ => 0
    end in
  Ret {| api.BgpInfo.Origin := mustString (index bgpData "origin") "unknown";
         api.BgpInfo.AsPath := asPath;
         api.BgpInfo.NextHop := mustString (index bgpData "next_hop") "unknown";
         api.BgpInfo.LocalPref := localPref;
         api.BgpInfo.Med := med;
         api.BgpInfo.Communities := communities;
         api.BgpInfo.LargeCommunities := largeCommunities |}.

Section WithTime.
Context `{TimeLib}.

(** Convert server time string to time *)
Definition parseServerTime (v : value) (layout timezone : string)
  : time_Time * option error :=
  match v with
  | VString svalue =>
      match time_LoadLocation timezone with
      | inr err => (zero_time, Some err)
      | inl loc => time_ParseInLocation layout svalue loc
      end
  | _ => (zero_time, None)
  end.

(** [api.ApiStatus{}] *)
Definition zero_ApiStatus : api.ApiStatus.t :=
  {| api.ApiStatus.Version := "";
     api.ApiStatus.ResultFromCache := false;
     api.ApiStatus.Ttl := zero_time |}.

(** Make api status from response:
    The api status is always included in a birdwatcher response *)
Definition parseApiStatus (bird : gmap string value) (config : Config)
  : outcome (api.ApiStatus.t * option error) :=
  birdApi ← assert_map (index bird "api");
  let '(ttl, err) :=
    parseServerTime (index bird "ttl") SERVER_TIME (Timezone config) in
  match err with
  | Some err => Ret (zero_ApiStatus, Some err)
  | None =>
      version ← assert_string (index birdApi "Version");
      resultFromCache ← assert_bool (index birdApi "result_from_cache");
      Ret ({| api.ApiStatus.Version := version;
              api.ApiStatus.ResultFromCache := resultFromCache;
              api.ApiStatus.Ttl := ttl |}, None)
  end.

(** Parse neighbour uptime.  [now] is what the wall clock reads when
    [time.Since] is evaluated. *)
Definition parseRelativeServerTime (now : time_Time) (uptime : value)
    (config : Config) : time_Duration :=
  let '(serverTime, _) :=
    parseServerTime uptime SERVER_TIME_SHORT (Timezone config) in
  time_Since now serverTime.

(** The body of the loop of [parseNeighbours]. *)
Definition parseNeighbour (now : time_Time) (config : Config)
    (protocolId : string) (proto : value) : outcome api.Neighbour.t :=
  protocol ← assert_map proto;
  routes ← assert_map (index protocol "routes");
  let uptime :=
    parseRelativeServerTime now (index protocol "state_changed") config in
  let lastError := mustString (index protocol "last_error") "" in
  address ← assert_string (index protocol "neighbor_address");
  asn ← int_float64 (index protocol "neighbor_as");
  state ← assert_string (index protocol "state");
  description ← assert_string (index protocol "description");
  routesReceived ← int_float64 (index routes "imported");
  routesExported ← int_float64 (index routes "exported");
  routesFiltered ← int_float64 (index routes "filtered");
  routesPreferred ← int_float64 (index routes "preferred");
  Ret {| api.Neighbour.Id := protocolId;
         api.Neighbour.Address := address;
         api.Neighbour.Asn := asn;
         api.Neighbour.State := state;
         api.Neighbour.Description := description;
         api.Neighbour.RoutesReceived := routesReceived;
         api.Neighbour.RoutesExported := routesExported;
         api.Neighbour.RoutesFiltered := routesFiltered;
         api.Neighbour.RoutesPreferred := routesPreferred;
         api.Neighbour.Uptime := uptime;
         api.Neighbour.LastError := lastError;
         api.Neighbour.Details := protocol |}.

(** Parse neighbours response.  [rho] is the order in which [range]
    visits the protocols map.  Every iteration calls
    [parseRelativeServerTime], which reads the wall clock once:
    [clock k] is what the clock reads at the read number [k] of the call
    (counted from 0), and the loop carries the number of reads made so
    far next to the slice it builds. *)
Definition parseNeighbours (rho : range_order string value)
    (clock : nat -> time_Time) (bird : gmap string value) (config : Config)
  : outcome (list api.Neighbour.t * option error) :=
  protocols ← assert_map (index bird "protocols");
  '(neighbours, _) ←
    for_range (rho protocols)
      (fun '(neighbours, reads) '(protocolId, proto) =>
         neighbour ← parseNeighbour (clock reads) config protocolId proto;
         Ret (go_append neighbours neighbour, S reads)) ([], 0%nat);
  Ret (sort_Sort api.Neighbours_Less neighbours, None).

(** The body of the loop of [parseRoutes]. *)
Definition parseRoute (now : time_Time) (config : Config) (data : value)
  : outcome api.Route.t :=
  rdata ← assert_map data;
  let age := parseRelativeServerTime now (index rdata "age") config in
  rtype ← mustStringList (index rdata "type");
  bgpInfo ← parseRouteBgpInfo (index rdata "bgp");
  id ← assert_string (index rdata "network");
  neighbourId ← assert_string (index rdata "from_protocol");
  network ← assert_string (index rdata "network");
  interface ← assert_string (index rdata "interface");
  gateway ← assert_string (index rdata "gateway");
  metric ← int_float64 (index rdata "metric");
  Ret {| api.Route.Id := id;
         api.Route.NeighbourId := neighbourId;
         api.Route.Network := network;
         api.Route.Interface := interface;
         api.Route.Gateway := gateway;
         api.Route.Metric := metric;
         api.Route.Age := age;
         api.Route.Type_ := rtype;
         api.Route.Bgp := bgpInfo;
         api.Route.Details := rdata |}.

(** Parse routes response.  As in [parseNeighbours], every iteration
    reads the wall clock once, and [clock k] is the reading number [k]. *)
Definition parseRoutes (clock : nat -> time_Time)
    (bird : gmap string value) (config : Config)
  : outcome (list api.Route.t * option error) :=
  birdRoutes ← assert_slice (index bird "routes");
  '(routes, _) ←
    for_range birdRoutes
      (fun '(routes, reads) data =>
         route ← parseRoute (clock reads) config data;
         Ret (go_append routes route, S reads)) ([], 0%nat);
  (* Sort routes *)
  Ret (sort_Sort api.Routes_Less routes, None).

End WithTime.

End birdwatcher.

(* ===================================================================== *)
(** ** Package main: the routes store                                     *)
(* ===================================================================== *)

Module main.

(** A [sources.Source] instance, used as a map key: an opaque handle.
    What its [AllRoutes()] answers, and how long the call takes, is given
    by the environment, once per refresh. *)
Definition Source : Type := nat.

(** The backend behind a source during one refresh: what [AllRoutes()]
    returns and the time the call takes. *)
Record Backend : Type :=
  { AllRoutes : api.RoutesResponse.t * option error;
    latency : time_Duration }.

Definition Backends : Type := Source -> Backend.

(** Modelled from the spec: the declarations of [SourceConfig] and
    [Config] are not part of the sources at hand.  A [SourceConfig] is the
    static configuration of one backend, one-to-one with a source; the
    store reads its display name and its instance, and the configured
    backends of a [Config]. *)
Record SourceConfig : Type :=
  { Name : string;
    getInstance : Source }.

Record Config : Type := { Sources : list SourceConfig }.

Definition STATE_INIT : Z := 0.
Definition STATE_READY : Z := 1.
Definition STATE_UPDATING : Z := 2.
Definition STATE_ERROR : Z := 3.

Record RoutesStats : Type :=
  { Filtered : Z;
    Imported : Z }.

Module RouteServerStats.
Record t : Type :=
  { Name : string;
    Routes : RoutesStats;
    State : string;
    UpdatedAt : time_Time }.
End RouteServerStats.

Record StoreStats : Type :=
  { TotalRoutes : RoutesStats;
    RouteServers : list RouteServerStats.t }.

Record StoreStatus : Type :=
  { LastRefresh : time_Time;
    LastError : option error;
    State : Z }.

Record RoutesStore : Type :=
  { routesMap : gmap Source api.RoutesResponse.t;
    statusMap : gmap Source StoreStatus;
    configMap : gmap Source SourceConfig }.

(** Zero values, as a map read of an absent key returns them. *)
Definition zero_RoutesResponse : api.RoutesResponse.t :=
  {| api.RoutesResponse.Imported := []; api.RoutesResponse.Filtered := [] |}.
Definition zero_StoreStatus : StoreStatus :=
  {| LastRefresh := zero_time; LastError := None; State := 0 |}.
Definition zero_SourceConfig : SourceConfig :=
  {| Name := ""; getInstance := 0%nat |}.

Definition NewRoutesStore (config : Config) : RoutesStore :=
  (* Build mapping based on source instances *)
  let '(routesMap, statusMap, configMap) :=
    foldl
      (fun '(routesMap, statusMap, configMap) source =>
         let instance := getInstance source in
         let configMap := <[instance := source]> configMap in
         let routesMap := <[instance := zero_RoutesResponse]> routesMap in
         let statusMap :=
           <[instance := {| LastRefresh := zero_time;
                            LastError := None;
                            State := STATE_INIT |}]> statusMap in
         (routesMap, statusMap, configMap))
      (∅, ∅, ∅) (Sources config) in
  {| routesMap := routesMap; statusMap := statusMap; configMap := configMap |}.

(** The running process: the store behind the [*RoutesStore] pointer and
    the wall clock.  Two fields are ghosts, kept for the statements only:
    [status_log] records every write to [statusMap] made by [update], in
    order, and [lookup_log] every call of [Lookup]. *)
Record Process : Type :=
  { store : RoutesStore;
    clock : time_Time;
    status_log : list (Source * Z);
    lookup_log : list string }.

(** [self.statusMap[source]] *)
Definition status_of (self : RoutesStore) (source : Source) : StoreStatus :=
  default zero_StoreStatus (statusMap self !! source).

(** [self.statusMap[source] = status] *)
Definition set_status (source : Source) (status : StoreStatus)
    (p : Process) : Process :=
  {| store :=
       {| routesMap := routesMap (store p);
          statusMap := <[source := status]> (statusMap (store p));
          configMap := configMap (store p) |};
     clock := clock p;
     status_log := go_append (status_log p) (source, State status);
     lookup_log := lookup_log p |}.

(** [self.routesMap[source] = routes] *)
Definition set_routes (source : Source) (routes : api.RoutesResponse.t)
    (p : Process) : Process :=
  {| store :=
       {| routesMap := <[source := routes]> (routesMap (store p));
          statusMap := statusMap (store p);
          configMap := configMap (store p) |};
     clock := clock p;
     status_log := status_log p;
     lookup_log := lookup_log p |}.

(** [source.AllRoutes()]: the answer of the backend; the clock moves on
    while the call is under way. *)
Definition call_AllRoutes (env : Backends) (source : Source) (p : Process)
  : api.RoutesResponse.t * option error * Process :=
  (AllRoutes (env source),
   {| store := store p;
      clock := clock p + Z.max 0 (latency (env source));
      status_log := status_log p;
      lookup_log := lookup_log p |}).

(** [time.Now()] *)
Definition time_Now (p : Process) : time_Time := clock p.

(** The body of the loop of [update]. *)
Definition update_source (env : Backends) (source : Source) (p : Process)
  : Process :=
  (* Get current update state *)
  if State (status_of (store p) source) =? STATE_UPDATING
  then p (* nothing to do here *)
  else
    (* Set update state *)
    let p :=
      set_status source
        {| LastRefresh := zero_time; LastError := None;
           State := STATE_UPDATING |} p in
    let '(routes, err, p) := call_AllRoutes env source p in
    match err with
    | Some err =>
        set_status source
          {| State := STATE_ERROR;
             LastError := Some err;
             LastRefresh := time_Now p |} p
    | None =>
        (* Update data *)
        let p := set_routes source routes p in
        (* Update state *)
        set_status source
          {| LastRefresh := time_Now p;
             LastError := None;
             State := STATE_READY |} p
    end.

(** Update all routes.  [rho] is the order in which [range] visits
    [routesMap]. *)
Definition update (rho : range_order Source api.RoutesResponse.t)
    (env : Backends) (p : Process) : Process :=
  foldl (fun p '(source, _) => update_source env source p)
    p (rho (routesMap (store p))).

(** Helper: stateToString *)
Definition stateToString (state : Z) : string :=
  if state =? STATE_INIT then "INIT"
  else if state =? STATE_READY then "READY"
  else if state =? STATE_UPDATING then "UPDATING"
  else if state =? STATE_ERROR then "ERROR"
  else "INVALID".

(** [len(l)] *)
Definition len {A : Type} (l : list A) : Z := Z.of_nat (length l).

(** The summary [Stats] makes of one backend. *)
Definition serverStats (self : RoutesStore) (source : Source)
    (routes : api.RoutesResponse.t) : RouteServerStats.t :=
  let status := status_of self source in
  {| RouteServerStats.Name :=
       Name (default zero_SourceConfig (configMap self !! source));
     RouteServerStats.Routes :=
       {| Filtered := len (api.RoutesResponse.Filtered routes);
          Imported := len (api.RoutesResponse.Imported routes) |};
     RouteServerStats.State := stateToString (State status);
     RouteServerStats.UpdatedAt := LastRefresh status |}.

(** Calculate store insights *)
Definition Stats (rho : range_order Source api.RoutesResponse.t)
    (self : RoutesStore) : StoreStats :=
  let '(totalImported, totalFiltered, rsStats) :=
    foldl
      (fun '(totalImported, totalFiltered, rsStats) '(source, routes) =>
         (totalImported + len (api.RoutesResponse.Imported routes),
          totalFiltered + len (api.RoutesResponse.Filtered routes),
          go_append rsStats (serverStats self source routes)))
      (0, 0, []) (rho (routesMap self)) in
  (* Make stats *)
  {| TotalRoutes :=
       {| Imported := totalImported; Filtered := totalFiltered |};
     RouteServers := rsStats |}.

Definition Lookup (self : RoutesStore) (prefix : string)
  : list api.LookupRoute.t :=
  let result := [] in
  result.

(** The process started by [NewRoutesStore] at the instant [t0]. *)
Definition boot (config : Config) (t0 : time_Time) : Process :=
  {| store := NewRoutesStore config;
     clock := t0;
     status_log := [];
     lookup_log := [] |}.

(** *** The HTTP API *)

(** [*http.Request], reduced to [req.URL.Query()]. *)
Record Request : Type := { URL_Query : gmap string (list string) }.

(** Handle Routeservers List *)
Definition apiRouteserversList (AliceConfig : Config)
  : api.RouteserversResponse.t * option error :=
  (* Get list of sources from config, *)
  let sources := Sources AliceConfig in
  let routeservers :=
    foldl
      (fun routeservers '(id, source) =>
         go_append routeservers
           {| api.Routeserver.Id := id;
              api.Routeserver.Name := Name source |})
      [] (slice_range sources) in
  (* Make routeservers response *)
  ({| api.RouteserversResponse.Routeservers := routeservers |}, None).

(** Helper: Validate source Id *)
Definition validateSourceId (AliceConfig : Config) (id : string)
  : Z * option error :=
  let '(rsId, err) := strconv_Atoi id in
  match err with
  | Some err => (0, Some err)
  | None =>
      if rsId <? 0
      then (0, Some (Errorf "Source id may not be negative"))
      else if rsId >=? len (Sources AliceConfig)
      then (0, Some (Errorf ("Source id not within [0, "
                             ++ pretty (len (Sources AliceConfig) - 1)
                             ++ "]")))
      else (rsId, None)
  end.

(** Helper: Validate query string *)
Definition validateQueryString (req : Request) (key : string)
  : string * option error :=
  let query := URL_Query req in
  match query !! key with
  | None => ("", Some (Errorf ("Query param " ++ key ++ " is missing.")))
  | Some values =>
      if negb (len values =? 1)
      then ("", Some (Errorf ("Query param " ++ key ++ " is ambigous.")))
      else
        let value := default "" (head values) in
        if String.eqb value ""
        then ("", Some (Errorf ("Query param " ++ key ++ " may not be empty.")))
        else (value, None)
  end.

(** Helper: Validate prefix query *)
Definition validatePrefixQuery (value : string) : string * option error :=
  (* We should at least provide 2 chars *)
  if Z.of_nat (String.length value) <? 2
  then ("", Some (Errorf "Query too short"))
  else (value, None).

(** [api.LookupResponseGlobal], with the fields the handler fills. *)
Record LookupResponseGlobal : Type :=
  { Routes : list api.LookupRoute.t;
    Time_ : float }.

(** [AliceRoutesStore.Lookup(prefix)], which takes [elapsed]. *)
Definition call_Lookup (elapsed : time_Duration) (prefix : string)
    (p : Process) : list api.LookupRoute.t * Process :=
  (Lookup (store p) prefix,
   {| store := store p;
      clock := clock p + Z.max 0 elapsed;
      status_log := status_log p;
      lookup_log := go_append (lookup_log p) prefix |}).

(** Handle global lookup *)
Definition apiLookupPrefixGlobal (elapsed : time_Duration) (req : Request)
    (p : Process) : option LookupResponseGlobal * option error * Process :=
  (* Get prefix to query *)
  let '(prefix, err) := validateQueryString req "q" in
  match err with
  | Some err => (None, Some err, p)
  | None =>
      let '(prefix, err) := validatePrefixQuery prefix in
      match err with
      | Some err => (None, Some err, p)
      | None =>
          (* Make response *)
          let t0 := time_Now p in
          let '(routes, p) := call_Lookup elapsed prefix p in
          let queryDuration := time_Since (time_Now p) t0 in
          let response :=
            {| Routes := routes;
               Time_ := float64_of_int queryDuration / 1000 / 1000 |} in
          (Some response, None, p)
      end
  end.

(** [httprouter.Params] and its [ByName]: the value of the first
    parameter of that name, or the empty string. *)
Definition Params : Type := list (string * string).

Definition ByName (ps : Params) (name : string) : string :=
  default "" ((fun found => found.2.2) <$> list_find (fun kv => kv.1 = name) ps).

(** What a source answers to the direct queries of the [Source]
    interface, whatever the types of the responses are. *)
Module Answers.
Record t (S N R : Type) : Type :=
  { Status : S * option error;
    Neighbours : N * option error;
    Routes : string -> R * option error }.
Arguments Status {S N R} _.
Arguments Neighbours {S N R} _.
Arguments Routes {S N R} _ _.
End Answers.

Section Handlers.
Context {S N R : Type}.
Context (AliceConfig : Config) (instances : Source -> Answers.t S N R).

(** Handle status *)
Definition apiStatus (params : Params)
  : option (option S * option error) :=
  let '(rsId, err) := validateSourceId AliceConfig (ByName params "id") in
  match err with
  | Some err => Some (None, Some err)
  | None =>
      source ← slice_index (Sources AliceConfig) rsId;
      let '(result, err) := Answers.Status (instances (getInstance source)) in
      Some (Some result, err)
  end.

(** Handle get neighbours on routeserver *)
Definition apiNeighboursList (params : Params)
  : option (option N * option error) :=
  let '(rsId, err) := validateSourceId AliceConfig (ByName params "id") in
  match err with
  | Some err => Some (None, Some err)
  | None =>
      source ← slice_index (Sources AliceConfig) rsId;
      let '(result, err) :=
        Answers.Neighbours (instances (getInstance source)) in
      Some (Some result, err)
  end.

(** Handle routes *)
Definition apiRoutesList (params : Params)
  : option (option R * option error) :=
  let '(rsId, err) := validateSourceId AliceConfig (ByName params "id") in
  match err with
  | Some err => Some (None, Some err)
  | None =>
      let neighbourId := ByName params "neighbourId" in
      source ← slice_index (Sources AliceConfig) rsId;
      let '(result, err) :=
        Answers.Routes (instances (getInstance source)) neighbourId in
      Some (Some result, err)
  end.

End Handlers.

End main.

(* ===================================================================== *)
(** ** Auxiliary notions used by the statements                           *)
(* ===================================================================== *)

(** The shape of every collecting loop of the parsers: the element is
    converted by [f] and appended. *)
Definition collects {A B : Type} (f : A -> outcome B)
    (body : list B -> A -> outcome (list B)) : Prop :=
  forall acc x, body acc x = f x ≫= fun y => Ret (go_append acc y).

(** The shape of the collecting loops that read the wall clock once per
    iteration: the element met after [k] reads is converted by [f k] and
    appended, and the number of reads goes up by one. *)
Definition counts {A B : Type} (f : nat -> A -> outcome B)
    (body : list B * nat -> A -> outcome (list B * nat)) : Prop :=
  forall acc k x,
    body (acc, k) x = f k x ≫= fun y => Ret (go_append acc y, S k).

(** The elements of a slice, each with the number of its iteration. *)
Definition visits {A : Type} (l : list A) : list (nat * A) :=
  imap (fun k x => (k, x)) l.

(** The collecting loop over [visits]. *)
Definition visit {A B : Type} (f : nat -> A -> outcome B)
    (acc : list B) (v : nat * A) : outcome (list B) :=
  f v.1 v.2 ≫= fun y => Ret (go_append acc y).

(** *** Decimal numerals *)

(** The number a string denotes when it is an optional sign followed by
    one or more decimal digits. *)
Definition numeral (s : string) : option Z :=
  let '(neg, body) := split_sign s in
  match body with
  | EmptyString => None
  | _ => (fun n => if neg then - n else n) <$> parse_digits body 0
  end.

(** The [int] nearest to [v]. *)
Definition nearest_int (v : Z) : Z := Z.max minInt64 (Z.min maxInt64 v).

(** *** Strings of a slice *)

Definition strings_of (l : list value) : list string :=
  omap (fun e => match e with VString s => Some s | _ => None end) l.

(** *** Communities *)

Definition is_number (v : value) : bool :=
  match v with VNumber _ => true | _ => false end.

Definition is_string (v : value) : bool :=
  match v with VString _ => true | _ => false end.

Definition is_slice (v : value) : bool :=
  match v with VArray _ => true | _ => false end.

(** A communities value the parser can digest: anything that is not a
    list, or a list of lists of numbers. *)
Definition communities_shaped (data : value) : bool :=
  match data with
  | VArray ldata =>
      forallb (fun c => match c with
                        | VArray cdata => forallb is_number cdata
                        | _ => false
                        end) ldata
  | _ => true
  end.

Definition number_int (v : value) : Z :=
  match v with VNumber f => int_of_float64 f | _ => 0 end.

Definition community_ints (c : value) : list Z :=
  match c with VArray cdata => number_int <$> cdata | _ => [] end.

Definition parseCommunity (c : value) : outcome (list Z) :=
  cdata ← assert_slice c;
  for_range cdata
    (fun community cinfo =>
       n ← birdwatcher.int_float64 cinfo; Ret (go_append community n)) [].

(** *** A time library for the examples

    Only the location UTC and the layout of [SERVER_TIME_SHORT]. *)

Definition days_from_civil (y m d : Z) : Z :=
  let y' := if m <=? 2 then y - 1 else y in
  let era := y' / 400 in
  let yoe := y' - era * 400 in
  let doy := (153 * (if m >? 2 then m - 3 else m + 9) + 2) / 5 + d - 1 in
  let doe := yoe * 365 + yoe / 4 - yoe / 100 + doy in
  era * 146097 + doe - 306.

Definition field (s : string) (start n : nat) : option Z :=
  parse_digits (substring start n s) 0.

Definition parse_short (s : string) : option time_Time :=
  if negb (String.length s =? 19)%nat then None else
  y ← field s 0 4; m ← field s 5 2; d ← field s 8 2;
  hh ← field s 11 2; mm ← field s 14 2; ss ← field s 17 2;
  Some ((((days_from_civil y m d * 24 + hh) * 60 + mm) * 60 + ss)
        * 1000000000).

#[global] Instance utc_TimeLib : TimeLib :=
  {| Location := unit;
     time_LoadLocation tz :=
       if String.eqb tz "UTC" || String.eqb tz ""
       then inl tt
       else inr (ErrOther ("unknown time zone " ++ tz));
     time_ParseInLocation layout s _ :=
       if String.eqb layout birdwatcher.SERVER_TIME_SHORT
       then match parse_short s with
            | Some t => (t, None)
            | None => (zero_time, Some (ErrOther "parsing time: cannot parse"))
            end
       else (zero_time, Some (ErrOther "parsing time: layout")) |}.

Definition utc_config : birdwatcher.Config :=
  {| birdwatcher.Timezone := "UTC" |}.

(** 2020-01-01 00:00:00 UTC and one hour later. *)
Definition t_2020 : time_Time := 63713433600000000000.
Definition t_2020_1h : time_Time := 63713437200000000000.

(** A clock that stands still at [t], and one that starts at [t] and is a
    millisecond further at every read. *)
Definition at_instant (t : time_Time) : nat -> time_Time := fun _ => t.
Definition ticking (t : time_Time) : nat -> time_Time :=
  fun k => t + 1000000 * Z.of_nat k.

(** *** Protocol entries *)

(** A protocol entry [parseNeighbours] can digest: an object with the
    mandatory fields, each of the type the parser asserts. *)
Definition protocol_ok (proto : value) : bool :=
  match proto with
  | VObject protocol =>
      match index protocol "routes" with
      | VObject routes =>
          is_string (index protocol "neighbor_address")
          && is_number (index protocol "neighbor_as")
          && is_string (index protocol "state")
          && is_string (index protocol "description")
          && is_number (index routes "imported")
          && is_number (index routes "exported")
          && is_number (index routes "filtered")
          && is_number (index routes "preferred")
      | _ => false
      end
  | _ => false
  end.

(** The neighbour [n] with its uptime computed again at the instant [now],
    from the raw [state_changed] kept in its details. *)
Definition retime_neighbour `{TimeLib} (now : time_Time)
    (config : birdwatcher.Config) (n : api.Neighbour.t) : api.Neighbour.t :=
  {| api.Neighbour.Id := api.Neighbour.Id n;
     api.Neighbour.Address := api.Neighbour.Address n;
     api.Neighbour.Asn := api.Neighbour.Asn n;
     api.Neighbour.State := api.Neighbour.State n;
     api.Neighbour.Description := api.Neighbour.Description n;
     api.Neighbour.RoutesReceived := api.Neighbour.RoutesReceived n;
     api.Neighbour.RoutesFiltered := api.Neighbour.RoutesFiltered n;
     api.Neighbour.RoutesExported := api.Neighbour.RoutesExported n;
     api.Neighbour.RoutesPreferred := api.Neighbour.RoutesPreferred n;
     api.Neighbour.Uptime :=
       birdwatcher.parseRelativeServerTime now
         (index (api.Neighbour.Details n) "state_changed") config;
     api.Neighbour.LastError := api.Neighbour.LastError n;
     api.Neighbour.Details := api.Neighbour.Details n |}.

(** The route [r] with its age computed again at the instant [now]. *)
Definition retime_route `{TimeLib} (now : time_Time)
    (config : birdwatcher.Config) (r : api.Route.t) : api.Route.t :=
  {| api.Route.Id := api.Route.Id r;
     api.Route.NeighbourId := api.Route.NeighbourId r;
     api.Route.Network := api.Route.Network r;
     api.Route.Interface := api.Route.Interface r;
     api.Route.Gateway := api.Route.Gateway r;
     api.Route.Metric := api.Route.Metric r;
     api.Route.Age :=
       birdwatcher.parseRelativeServerTime now
         (index (api.Route.Details r) "age") config;
     api.Route.Type_ := api.Route.Type_ r;
     api.Route.Bgp := api.Route.Bgp r;
     api.Route.Details := api.Route.Details r |}.







(** No element of the list is out of order with its successor. *)
Definition in_order {A : Type} (less : A -> A -> bool) (l : list A) : Prop :=
  Sorted (fun a b => less b a = false) l.

(** [Less] by a string key. *)
Definition key_less {A : Type} (key : A -> string) : A -> A -> bool :=
  fun a b => string_lt (key a) (key b).


(** *** The refresh state machine *)

(** The state a refresh of [source] ends in. *)
Definition refresh_result (env : main.Backends) (source : main.Source) : Z :=
  match (main.AllRoutes (env source)).2 with
  | Some _ => main.STATE_ERROR
  | None => main.STATE_READY
  end.

(** The states written for [source], oldest first. *)
Definition trace_of (source : main.Source) (log : list (main.Source * Z))
  : list Z :=
  (filter (fun entry => entry.1 = source) log).*2.

(** Refresh cycles one after the other, each with its order of visit and
    its answers of the backends. *)
Definition run
    (cycles : list (range_order main.Source api.RoutesResponse.t
                    * main.Backends))
    (p : main.Process) : main.Process :=
  foldl (fun p '(rho, env) => main.update rho env p) p cycles.

(** The transitions of the specification. *)
Inductive transition : Z -> Z -> Prop :=
| init_updating : transition main.STATE_INIT main.STATE_UPDATING
| updating_ready : transition main.STATE_UPDATING main.STATE_READY
| updating_error : transition main.STATE_UPDATING main.STATE_ERROR
| ready_updating : transition main.STATE_READY main.STATE_UPDATING
| error_updating : transition main.STATE_ERROR main.STATE_UPDATING.

(** Every state of the list is followed by one it has a transition to. *)
Definition follows_transitions (states : list Z) : Prop :=
  Sorted transition states.

(** The states of a backend from the creation of the store on: the state
    the store holds for it when [NewRoutesStore] returns, then the states
    the refresh cycles write. *)
Definition lifecycle (config : main.Config) (t0 : time_Time)
    (cycles : list (range_order main.Source api.RoutesResponse.t
                    * main.Backends))
    (source : main.Source) : list Z :=
  main.State (main.status_of (main.store (main.boot config t0)) source)
  :: trace_of source (main.status_log (run cycles (main.boot config t0))).

(** The loop of [update] over the entries [l] of [routesMap]. *)
Definition update_list (env : main.Backends)
    (l : list (main.Source * api.RoutesResponse.t)) (p : main.Process)
  : main.Process :=
  foldl (fun p '(source, _) => main.update_source env source p) p l.

(** What the process holds and has recorded for one backend. *)
Definition view (source : main.Source) (p : main.Process)
  : option api.RoutesResponse.t * option main.StoreStatus * list Z :=
  (main.routesMap (main.store p) !! source,
   main.statusMap (main.store p) !! source,
   trace_of source (main.status_log p)).

(** *** Lookup *)

(** The lookup the specification describes, with the exact match of the
    network as its notion of matching: the cached routes of every backend
    whose network is the prefix, tagged with the name of the backend. *)
Definition Lookup_spec (rho : range_order main.Source api.RoutesResponse.t)
    (self : main.RoutesStore) (prefix : string) : list api.LookupRoute.t :=
  '(source, routes) ← rho (main.routesMap self);
  route ← filter (fun route => api.Route.Network route = prefix)
            (api.RoutesResponse.Imported routes
             ++ api.RoutesResponse.Filtered routes);
  [ {| api.LookupRoute.Routeserver :=
         main.Name (default main.zero_SourceConfig
                      (main.configMap self !! source));
       api.LookupRoute.Route_ := route |} ].

(** *** Payloads of the examples *)

(** A BGP attribute block without [origin] and without [local_pref]. *)
Definition bgp_block_no_local_pref : value :=
  VObject {[ "as_path" := VArray [VString "65001"];
             "med" := VString "10" ]}.

(** A BGP attribute block whose [local_pref] is a numeral too large for
    an [int]. *)
Definition bgp_block_huge_local_pref : value :=
  VObject {[ "as_path" := VArray [VString "65001"];
             "local_pref" := VString "99999999999999999999" ]}.

(** A BGP attribute block without [origin] and [med], whose [local_pref]
    is not a number. *)
Definition bgp_block_defaults : gmap string value :=
  {[ "as_path" := VArray [VString "65001"; VString "AS65002"];
     "local_pref" := VString "high";
     "communities" := VArray [VArray [VNumber 65000; VNumber 1]] ]}.

(** Communities given as strings instead of lists of numbers. *)
Definition communities_as_strings : value :=
  VArray [VString "65000:1"].

(** A protocol entry, with every mandatory field when [address] is given. *)
Definition protocol_entry (address : option string) (asn : float)
    (state_changed : value) (last_error : option string) : value :=
  let fields : gmap string value :=
    {[ "neighbor_as" := VNumber asn;
       "state" := VString "up";
       "description" := VString "peer";
       "state_changed" := state_changed;
       "routes" := VObject {[ "imported" := VNumber 10;
                              "exported" := VNumber 4;
                              "filtered" := VNumber 2;
                              "preferred" := VNumber 7 ]} ]} in
  let fields :=
    match address with
    | Some a => <["neighbor_address" := VString a]> fields
    | None => fields
    end in
  VObject match last_error with
          | Some e => <["last_error" := VString e]> fields
          | None => fields
          end.

(** Two sessions, the second without [last_error]. *)
Definition neighbours_payload : gmap string value :=
  {[ "protocols" :=
       VObject {[ "R2" := protocol_entry (Some "10.0.0.2") 65002
                            (VString "2020-01-01 00:00:00") None;
                  "R1" := protocol_entry (Some "10.0.0.1") 65001
                            (VString "2020-01-01 00:00:00") (Some "") ]} ]}.

(** The same, but the second session has no neighbour address. *)
Definition neighbours_payload_no_address : gmap string value :=
  {[ "protocols" :=
       VObject {[ "R2" := protocol_entry None 65002
                            (VString "2020-01-01 00:00:00") None;
                  "R1" := protocol_entry (Some "10.0.0.1") 65001
                            (VString "2020-01-01 00:00:00") (Some "") ]} ]}.

(** The order of visit opposite to the one of [map_to_list]. *)
Definition reverse_order {K V : Type} `{Countable K} : range_order K V :=
  fun m => reverse (map_to_list m).

(** A route entry of the payload. *)
Definition route_entry (network gateway : string) (age : value) : value :=
  VObject {[ "network" := VString network;
             "from_protocol" := VString "R1";
             "interface" := VString "eth0";
             "gateway" := VString gateway;
             "metric" := VNumber 100;
             "age" := age;
             "type" := VArray [VString "BGP"; VString "unicast"];
             "bgp" := VObject bgp_block_defaults ]}.

Definition routes_payload : gmap string value :=
  {[ "routes" :=
       VArray [route_entry "192.168.0.0/24" "10.0.0.1"
                 (VString "2020-01-01 00:00:00");
               route_entry "10.0.0.0/24" "10.0.0.2"
                 (VString "2020-01-01 00:00:00");
               route_entry "10.0.0.0/24" "10.0.0.1" VNull] ]}.

(** *** The store of the examples *)

Definition example_route (network : string) : api.Route.t :=
  {| api.Route.Id := network;
     api.Route.NeighbourId := "R1";
     api.Route.Network := network;
     api.Route.Interface := "eth0";
     api.Route.Gateway := "10.0.0.1";
     api.Route.Metric := 100;
     api.Route.Age := 3600000000000;
     api.Route.Type_ := ["BGP"; "unicast"];
     api.Route.Bgp :=
       {| api.BgpInfo.Origin := "IGP";
          api.BgpInfo.AsPath := [65001];
          api.BgpInfo.NextHop := "10.0.0.1";
          api.BgpInfo.LocalPref := 100;
          api.BgpInfo.Med := 0;
          api.BgpInfo.Communities := [];
          api.BgpInfo.LargeCommunities := [] |};
     api.Route.Details := ∅ |}.

(** Two backends, [rs1] and [rs2]. *)
Definition two_sources : main.Config :=
  {| main.Sources := [ {| main.Name := "rs1"; main.getInstance := 1%nat |};
                       {| main.Name := "rs2"; main.getInstance := 2%nat |} ] |}.

(** Both backends answer; only the first has a route to 10.0.0.0/24. *)
Definition both_answer : main.Backends :=
  fun source =>
    if (source =? 1)%nat
    then {| main.AllRoutes :=
              ({| api.RoutesResponse.Imported :=
                    [example_route "10.0.0.0/24";
                     example_route "10.1.0.0/16"];
                  api.RoutesResponse.Filtered :=
                    [example_route "172.16.0.0/12"] |}, None);
            main.latency := 2000000000 |}
    else {| main.AllRoutes :=
              ({| api.RoutesResponse.Imported :=
                    [example_route "192.168.0.0/24"];
                  api.RoutesResponse.Filtered := [] |}, None);
            main.latency := 3000000000 |}.

(** The first backend times out, the second answers. *)
Definition first_fails : main.Backends :=
  fun source =>
    if (source =? 1)%nat
    then {| main.AllRoutes :=
              (main.zero_RoutesResponse, Some (ErrOther "i/o timeout"));
            main.latency := 30000000000 |}
    else both_answer source.

(** The process after one refresh in which both backends answered. *)
Definition both_cached : main.Process :=
  main.update map_to_list both_answer (main.boot two_sources t_2020).

(** Requests of the lookup API. *)
Definition request (values : option (list string)) : main.Request :=
  {| main.URL_Query :=
       match values with
       | Some vs => {[ "q" := vs ]}
       | None => ∅
       end |}.

(** A refresh in which both backends answer, then one in which the first
    times out. *)
Definition two_cycles
  : list (range_order main.Source api.RoutesResponse.t * main.Backends) :=
  [(map_to_list, both_answer); (reverse_order, first_fails)].

(** The routes the first backend answered with. *)
Definition rs1_routes : api.RoutesResponse.t :=
  (main.AllRoutes (both_answer 1%nat)).1.

(* ===================================================================== *)
(** ** Further notions: well-formed payloads, decoded fields              *)
(* ===================================================================== *)

Definition is_bool (v : value) : bool :=
  match v with VBool _ => true | _ => false end.

Definition is_map (v : value) : bool :=
  match v with VObject _ => true | _ => false end.

(** A BGP attribute block [parseRouteBgpInfo] can digest. *)
Definition bgp_block_ok (data : value) : bool :=
  match data with
  | VObject bgpData =>
      is_slice (index bgpData "as_path")
      && communities_shaped (index bgpData "communities")
      && communities_shaped (index bgpData "large_communities")
      && is_string (index bgpData "local_pref")
  | _ => false
  end.

(** Every typed field of the neighbour is the decoding of the raw field
    that its details keep. *)
Definition neighbour_decoded `{TimeLib} (now : time_Time)
    (config : birdwatcher.Config) (n : api.Neighbour.t) : Prop :=
  let protocol := api.Neighbour.Details n in
  index protocol "neighbor_address" = VString (api.Neighbour.Address n)
  /\ is_number (index protocol "neighbor_as") = true
  /\ api.Neighbour.Asn n = number_int (index protocol "neighbor_as")
  /\ index protocol "state" = VString (api.Neighbour.State n)
  /\ index protocol "description" = VString (api.Neighbour.Description n)
  /\ api.Neighbour.LastError n
     = birdwatcher.mustString (index protocol "last_error") ""
  /\ api.Neighbour.Uptime n
     = birdwatcher.parseRelativeServerTime now
         (index protocol "state_changed") config
  /\ exists routes,
       index protocol "routes" = VObject routes
       /\ api.Neighbour.RoutesReceived n = number_int (index routes "imported")
       /\ api.Neighbour.RoutesExported n = number_int (index routes "exported")
       /\ api.Neighbour.RoutesFiltered n = number_int (index routes "filtered")
       /\ api.Neighbour.RoutesPreferred n
          = number_int (index routes "preferred").

(** A payload with an API status block and a time to live. *)
Definition status_payload (api_block ttl : value) : gmap string value :=
  {[ "api" := api_block; "ttl" := ttl ]}.

Definition api_block : value :=
  VObject {[ "Version" := VString "1.7.11";
             "result_from_cache" := VBool true ]}.

(** *** The API of the examples *)

(** Sources that answer the direct queries with their display name. *)
Definition named_instances
  : main.Source -> main.Answers.t string string string :=
  fun source =>
    {| main.Answers.Status := ("status of " +:+ pretty source, None);
       main.Answers.Neighbours := ("neighbours of " +:+ pretty source, None);
       main.Answers.Routes neighbourId :=
         ("routes of " +:+ neighbourId +:+ " at " +:+ pretty source, None) |}.

Definition route_params (id neighbourId : string) : main.Params :=
  [("id", id); ("neighbourId", neighbourId)].

(** *** Invariants of the store *)

(** The sources of a configuration. *)
Definition configured (config : main.Config) : gset main.Source :=
  list_to_set (main.getInstance <$> main.Sources config).

(** The three maps of the store have the same keys. *)
Definition keys_agree (self : main.RoutesStore) (keys : gset main.Source)
  : Prop :=
  dom (main.routesMap self) = keys
  /\ dom (main.statusMap self) = keys
  /\ dom (main.configMap self) = keys.

(** The sums of the per-backend counts of a statistics. *)
Definition sum_imported (l : list main.RouteServerStats.t) : Z :=
  foldr (fun r n => main.Imported (main.RouteServerStats.Routes r) + n) 0 l.

Definition sum_filtered (l : list main.RouteServerStats.t) : Z :=
  foldr (fun r n => main.Filtered (main.RouteServerStats.Routes r) + n) 0 l.

(** The process of the examples in which a refresh of the first backend
    was under way and never finished. *)
Definition first_stuck : main.Process :=
  main.set_status 1%nat
    {| main.LastRefresh := zero_time;
       main.LastError := None;
       main.State := main.STATE_UPDATING |}
    (main.boot two_sources t_2020).

(** A configuration whose time zone the time library does not know. *)
Definition mars_config : birdwatcher.Config :=
  {| birdwatcher.Timezone := "Mars/Olympus" |}.

(* ===================================================================== *)
(** ** Facts about the runtime model                                      *)
(* ===================================================================== *)

Section ForRange.
Context {A S : Type}.
Implicit Types (l : list A) (s : S) (body : S -> A -> outcome S).

Lemma for_range_app l1 l2 body s :
  for_range (l1 ++ l2) body s = for_range l1 body s ≫= for_range l2 body.
Proof.
  revert s. induction l1 as [|x l1 IH]; intros s; simpl; [done|].
  destruct (body s x) as [s'|e]; simpl; [apply IH|done].
Qed.

(** A body that never panics makes the loop a left fold. *)
Lemma for_range_pure l body (g : S -> A -> S) s :
  (forall s x, x ∈ l -> body s x = Ret (g s x)) ->
  for_range l body s = Ret (foldl g s l).
Proof.
  revert s. induction l as [|x l IH]; intros s Hb; simpl; [done|].
  rewrite Hb by left. simpl. apply IH. intros s' y Hy. apply Hb. by right.
Qed.
End ForRange.

Section Collect.
Context {A B : Type} (f : A -> outcome B).
Implicit Types (l : list A) (acc ys : list B).

Lemma for_range_collect body l ys acc :
  collects f body ->
  Forall2 (fun x y => f x = Ret y) l ys ->
  for_range l body acc = Ret (acc ++ ys).
Proof.
  intros Hb HF. revert acc.
  induction HF as [|x y l ys Hxy _ IH]; intros acc; simpl.
  - by rewrite app_nil_r.
  - rewrite Hb, Hxy. simpl. rewrite IH. unfold go_append.
    by rewrite <- app_assoc.
Qed.

Lemma for_range_collect_inv body l acc r :
  collects f body ->
  for_range l body acc = Ret r ->
  exists ys, Forall2 (fun x y => f x = Ret y) l ys /\ r = acc ++ ys.
Proof.
  intros Hb. revert acc.
  induction l as [|x l IH]; intros acc; simpl.
  - intros [= <-]. exists []. split; [constructor|]. by rewrite app_nil_r.
  - rewrite Hb. destruct (f x) as [y|e] eqn:Hfx; simpl; [|done].
    intros Hr. destruct (IH _ Hr) as (ys & HF & ->).
    exists (y :: ys). split; [by constructor|].
    unfold go_append. by rewrite <- app_assoc.
Qed.

Lemma for_range_collect_nil body l ys :
  collects f body ->
  Forall2 (fun x y => f x = Ret y) l ys ->
  for_range l body [] = Ret ys.
Proof. intros Hb HF. by rewrite (for_range_collect body l ys []). Qed.

Lemma for_range_collect_nil_inv body l ys :
  collects f body ->
  for_range l body [] = Ret ys ->
  Forall2 (fun x y => f x = Ret y) l ys.
Proof.
  intros Hb Hr.
  by destruct (for_range_collect_inv body l [] ys Hb Hr) as (ys' & HF & ->).
Qed.

(** One element on which the body panics makes the loop panic, wherever
    the element stands. *)
Lemma for_range_collect_panics body l acc x :
  collects f body ->
  x ∈ l -> panics (f x) ->
  panics (for_range l body acc).
Proof.
  intros Hb Hin [e He]. revert acc.
  induction l as [|z l IH]; intros acc; [by apply elem_of_nil in Hin|].
  simpl. rewrite Hb.
  destruct (f z) as [y|e'] eqn:Hfz; simpl; [|by eexists].
  apply elem_of_cons in Hin as [->|Hin]; [congruence|]. by apply IH.
Qed.
End Collect.

(** *** strconv.Atoi *)

Lemma strconv_Atoi_not_numeric s :
  numeric s = false -> strconv_Atoi s = (0, Some (ErrSyntax "Atoi" s)).
Proof.
  unfold numeric, strconv_Atoi.
  destruct (split_sign s) as [neg body].
  destruct body as [|c body]; [done|].
  destruct (parse_digits (String c body) 0) as [n|] eqn:Hd; [|done].
  intros Hn. apply bool_decide_eq_false in Hn. destruct Hn. by eexists.
Qed.

Lemma strconv_Atoi_error_free_numeric s n :
  strconv_Atoi s = (n, None) -> numeric s = true.
Proof.
  destruct (numeric s) eqn:Hn; [done|].
  rewrite (strconv_Atoi_not_numeric _ Hn). done.
Qed.

Lemma numeral_numeric s : numeral s = None <-> numeric s = false.
Proof.
  unfold numeral, numeric.
  destruct (split_sign s) as [neg body].
  destruct body as [|c body]; [done|].
  destruct (parse_digits (String c body) 0) as [n|]; csimpl.
  - split; [done|]. intros Hn.
    first [done | apply bool_decide_eq_false in Hn; destruct Hn; by eexists].
  - split; [|done]. intros _.
    first [done | apply bool_decide_eq_false; by intros [? ?]].
Qed.

(** [strconv.Atoi] gives the [int] nearest to the number a numeral
    denotes, and 0 for any other string. *)
Lemma strconv_Atoi_numeral s :
  (strconv_Atoi s).1
  = match numeral s with Some v => nearest_int v | None => 0 end.
Proof.
  unfold numeral, strconv_Atoi.
  destruct (split_sign s) as [neg body].
  destruct body as [|c body]; [done|].
  destruct (parse_digits (String c body) 0) as [n|]; csimpl; [|done].
  unfold nearest_int.
  destruct (Z.gtb_spec (if neg then - n else n) maxInt64); simpl.
  - unfold maxInt64, minInt64 in *. lia.
  - destruct (Z.ltb_spec (if neg then - n else n) minInt64); simpl;
      unfold maxInt64, minInt64 in *; lia.
Qed.

Lemma strings_of_fmap (ss : list string) : strings_of (VString <$> ss) = ss.
Proof.
  unfold strings_of. induction ss as [|s ss IH]; csimpl; [done|].
  f_equal. apply IH.
Qed.

Lemma mustStringList_slice (l : list value) :
  birdwatcher.mustStringList (VArray l) = Ret (strings_of l).
Proof.
  unfold birdwatcher.mustStringList. simpl.
  erewrite for_range_pure with
    (g := fun acc e => match e with VString s => go_append acc s | _ => acc end).
  2:{ intros acc e _. by destruct e. }
  f_equal. change (strings_of l) with ([] ++ strings_of l)%list.
  generalize (@nil string) as acc.
  induction l as [|e l IH]; intros acc; simpl.
  - by rewrite app_nil_r.
  - rewrite IH. unfold strings_of. destruct e; simpl; try done.
    unfold go_append. by rewrite <- app_assoc.
Qed.

Lemma parseIntList_slice (l : list value) :
  birdwatcher.parseIntList (VArray l)
  = Ret ((fun s => fst (strconv_Atoi s)) <$> strings_of l).
Proof.
  unfold birdwatcher.parseIntList. rewrite mustStringList_slice. simpl.
  erewrite for_range_pure with
    (g := fun acc e => go_append acc (fst (strconv_Atoi e))).
  2:{ intros acc e _. by destruct (strconv_Atoi e). }
  f_equal.
  change ((fun s => fst (strconv_Atoi s)) <$> strings_of l)
    with ([] ++ ((fun s => fst (strconv_Atoi s)) <$> strings_of l))%list.
  generalize (@nil Z) as acc.
  induction (strings_of l) as [|s ss IH]; intros acc; simpl.
  - by rewrite app_nil_r.
  - rewrite IH. unfold go_append. by rewrite <- app_assoc.
Qed.

Lemma parseCommunity_numbers (cdata : list value) :
  forallb is_number cdata = true ->
  parseCommunity (VArray cdata) = Ret (number_int <$> cdata).
Proof.
  intros Hn. unfold parseCommunity. simpl.
  apply (for_range_collect birdwatcher.int_float64 _ cdata _ []); [done|].
  induction cdata as [|x cdata IH]; simpl in *; [constructor|].
  apply andb_prop in Hn as [Hx Hn]. constructor; [|by apply IH].
  by destruct x.
Qed.

Lemma parseBgpCommunities_shaped (ldata : list value) :
  communities_shaped (VArray ldata) = true ->
  birdwatcher.parseBgpCommunities (VArray ldata)
  = Ret (community_ints <$> ldata).
Proof.
  intros Hs. simpl in *.
  apply (for_range_collect parseCommunity _ ldata _ []).
  { intros acc x. by destruct x. }
  induction ldata as [|c ldata IH]; simpl in *; [constructor|].
  apply andb_prop in Hs as [Hc Hs]. constructor; [|by apply IH].
  destruct c; try done. by apply parseCommunity_numbers.
Qed.

Lemma parseBgpCommunities_returns (data : value) :
  communities_shaped data = true ->
  returns (birdwatcher.parseBgpCommunities data).
Proof.
  intros Hs. destruct data; try (by eexists).
  rewrite parseBgpCommunities_shaped by done. by eexists.
Qed.

Lemma parseBgpCommunities_misshaped (ldata : list value) :
  communities_shaped (VArray ldata) = false ->
  panics (birdwatcher.parseBgpCommunities (VArray ldata)).
Proof.
  intros Hs. simpl in Hs.
  assert (exists c, c ∈ ldata /\ panics (parseCommunity c)) as (c & Hin & Hp).
  { induction ldata as [|c ldata IH]; simpl in Hs; [done|].
    apply andb_false_iff in Hs as [Hc|Hs].
    - exists c. split; [left|].
      destruct c; try (by eexists).
      unfold parseCommunity. simpl.
      assert (exists x, x ∈ l /\ panics (birdwatcher.int_float64 x))
        as (x & Hx & Hpx).
      { clear -Hc. induction l as [|x l IH]; simpl in Hc; [done|].
        apply andb_false_iff in Hc as [Hx|Hc].
        - exists x. split; [left|]. destruct x; try done; by eexists.
        - destruct (IH Hc) as (y & Hy & Hpy). exists y. split; [by right|done]. }
      by apply (for_range_collect_panics birdwatcher.int_float64 _ l [] x).
    - destruct (IH Hs) as (c' & Hin & Hp). exists c'. split; [by right|done]. }
  apply (for_range_collect_panics parseCommunity _ ldata [] c); [|done..].
  intros acc x. by destruct x.
Qed.

Example parse_short_2020 :
  birdwatcher.parseServerTime (VString "2020-01-01 00:00:00")
    birdwatcher.SERVER_TIME_SHORT "UTC" = (t_2020, None).
Proof. vm_compute. reflexivity. Qed.

Example uptime_one_hour :
  birdwatcher.parseRelativeServerTime t_2020_1h
    (VString "2020-01-01 00:00:00") utc_config = 3600000000000.
Proof. vm_compute. reflexivity. Qed.

Example atoi_examples :
  strconv_Atoi "65001" = (65001, None)
  /\ strconv_Atoi "-12" = (-12, None)
  /\ strconv_Atoi "+7" = (7, None)
  /\ fst (strconv_Atoi "AS65001") = 0
  /\ fst (strconv_Atoi "") = 0
  /\ fst (strconv_Atoi "-") = 0
  /\ fst (strconv_Atoi "1_000") = 0
  /\ fst (strconv_Atoi "99999999999999999999") = maxInt64.
Proof. vm_compute. repeat split. Qed.

Example int_of_float64_examples :
  int_of_float64 65001%float = 65001
  /\ int_of_float64 (-2.75)%float = -2
  /\ int_of_float64 0.5%float = 0.
Proof. vm_compute. repeat split. Qed.

(* ===================================================================== *)
(** ** Time-valued fields                                                 *)
(* ===================================================================== *)

Lemma time_Since_zero_time (now : time_Time) :
  time_Since now zero_time = 0 <-> now = zero_time.
Proof.
  unfold time_Since, time_Sub, zero_time, maxDuration, minDuration,
    maxInt64, minInt64.
  rewrite Z.sub_0_r.
  destruct (Z.gtb_spec now 9223372036854775807);
    [lia|destruct (Z.ltb_spec now (-9223372036854775808)); lia].
Qed.

(** C9.  A time-valued field that is not a string is treated as absent:
    [parseServerTime] returns the zero time and no error, whatever the
    layout and the time zone.  [parseRelativeServerTime] then returns what
    [time.Since] makes of the zero time, the (saturated) duration between
    the zero time and now, which is a zero duration only at the zero time
    itself. *)
Theorem parseServerTime_not_a_string `{TimeLib} (v : value)
    (layout timezone : string) (now : time_Time)
    (config : birdwatcher.Config) :
  kind_of v <> KString ->
  birdwatcher.parseServerTime v layout timezone = (zero_time, None)
  /\ birdwatcher.parseRelativeServerTime now v config
     = time_Since now zero_time
  /\ (birdwatcher.parseRelativeServerTime now v config = 0
      <-> now = zero_time).
Proof.
  intros Hk.
  assert (forall l tz, birdwatcher.parseServerTime v l tz = (zero_time, None))
    as Hp by (intros; by destruct v).
  assert (birdwatcher.parseRelativeServerTime now v config
          = time_Since now zero_time) as Hr.
  { unfold birdwatcher.parseRelativeServerTime. by rewrite Hp. }
  split; [apply Hp|]. split; [apply Hr|].
  rewrite Hr. apply time_Since_zero_time.
Qed.

(** A number in place of the event time, read on 2020-01-01: the uptime
    is the largest duration. *)
Lemma parseServerTime_not_a_string_witness :
  birdwatcher.parseServerTime (VNumber 1577836800) birdwatcher.SERVER_TIME_SHORT
    "UTC" = (zero_time, None)
  /\ birdwatcher.parseRelativeServerTime t_2020 (VNumber 1577836800) utc_config
     = maxDuration.
Proof.
  destruct (parseServerTime_not_a_string (VNumber 1577836800)
              birdwatcher.SERVER_TIME_SHORT "UTC" t_2020 utc_config)
    as (H1 & H2 & _); [discriminate|].
  split; [exact H1|]. rewrite H2. reflexivity.
Defined.

(* ===================================================================== *)
(** ** AS paths                                                           *)
(* ===================================================================== *)

Lemma index_insert_eq (m : gmap string value) k v :
  index (<[k := v]> m) k = v.
Proof. unfold index. by rewrite lookup_insert_eq. Qed.

Lemma index_insert_ne (m : gmap string value) k k' v :
  k <> k' -> index (<[k := v]> m) k' = index m k'.
Proof. intros. unfold index. by rewrite lookup_insert_ne. Qed.

(** C7.  An [as_path] that is a list of strings is converted element by
    element: the result has one integer per string, the one [strconv.Atoi]
    gives, which is 0 for every string that is not numeric.  No element of
    a list, string or not, makes [parseIntList] fail (elements that are
    not strings are passed over), and a route's attribute block that
    parses with an empty path parses with any path of strings, to that
    list. *)
Theorem parseIntList_elementwise (ss : list string) :
  let ns := (fun s => fst (strconv_Atoi s)) <$> ss in
  birdwatcher.parseIntList (VArray (VString <$> ss)) = Ret ns
  /\ length ns = length ss
  /\ (forall i s, ss !! i = Some s -> numeric s = false -> ns !! i = Some 0)
  /\ (forall l : list value,
        birdwatcher.parseIntList (VArray l)
        = Ret ((fun s => fst (strconv_Atoi s)) <$> strings_of l))
  /\ (forall bgpData : gmap string value,
        returns (birdwatcher.parseRouteBgpInfo
                   (VObject (<["as_path" := VArray []]> bgpData))) ->
        exists bgp,
          birdwatcher.parseRouteBgpInfo
            (VObject (<["as_path" := VArray (VString <$> ss)]> bgpData))
          = Ret bgp
          /\ api.BgpInfo.AsPath bgp = ns).
Proof.
  intros ns.
  assert (birdwatcher.parseIntList (VArray (VString <$> ss)) = Ret ns) as Hp.
  { rewrite parseIntList_slice. by rewrite strings_of_fmap. }
  split; [exact Hp|]. split; [apply length_fmap|]. split; [|split].
  - intros i s Hi Hn. subst ns. rewrite list_lookup_fmap, Hi. simpl.
    by rewrite (strconv_Atoi_not_numeric _ Hn).
  - apply parseIntList_slice.
  - intros bgpData [b0 Hb0].
    unfold birdwatcher.parseRouteBgpInfo in *. simpl in *.
    rewrite index_insert_eq in *. rewrite Hp. simpl.
    rewrite !index_insert_ne in * by done.
    change (birdwatcher.parseIntList (VArray [])) with (Ret (@nil Z)) in Hb0.
    simpl in Hb0.
    destruct (birdwatcher.parseBgpCommunities (index bgpData "communities"));
      simpl in *; [|done].
    destruct (birdwatcher.parseBgpCommunities
                (index bgpData "large_communities")); simpl in *; [|done].
    destruct (assert_string (index bgpData "local_pref")); simpl in *; [|done].
    destruct (strconv_Atoi a1). by eexists.
Qed.

(** A path with one element that is not a number. *)
Lemma parseIntList_elementwise_witness :
  birdwatcher.parseIntList
    (VArray [VString "65001"; VString "AS65002"; VString "65003"])
  = Ret [65001; 0; 65003]
  /\ exists bgp,
       birdwatcher.parseRouteBgpInfo
         (VObject (<["as_path" := VArray (VString <$> ["65001"; "AS65002"])]>
                     bgp_block_defaults)) = Ret bgp
       /\ api.BgpInfo.AsPath bgp = [65001; 0].
Proof.
  split.
  - exact (proj1 (parseIntList_elementwise ["65001"; "AS65002"; "65003"])).
  - apply (proj2 (proj2 (proj2 (proj2
             (parseIntList_elementwise ["65001"; "AS65002"]))))).
    vm_compute. by eexists.
Defined.

(* ===================================================================== *)
(** ** Communities                                                        *)
(* ===================================================================== *)

(** C8, as the specification states it, fails: communities that are a list of
    strings are wrongly shaped, and the parser does not return for them. *)
Lemma parseBgpCommunities_wrong_shape_panics :
  communities_shaped communities_as_strings = false
  /\ ~ returns (birdwatcher.parseBgpCommunities communities_as_strings)
  /\ birdwatcher.parseBgpCommunities communities_as_strings
     = Panic {| concrete := KString; asserted := KSlice |}.
Proof.
  split; [reflexivity|]. split; [|reflexivity].
  intros [r Hr]. vm_compute in Hr. discriminate.
Qed.

(** C8, amended.  A communities value that is absent or not a list gives
    the empty sequence and no failure; a list of lists of numbers gives, in
    the same order, the sequences of the truncated numbers. *)
Theorem parseBgpCommunities_absent_or_shaped :
  (forall data : value,
     is_slice data = false -> birdwatcher.parseBgpCommunities data = Ret [])
  /\ (forall css : list (list float),
        birdwatcher.parseBgpCommunities
          (VArray ((fun cs : list float => VArray (VNumber <$> cs)) <$> css))
        = Ret ((fun cs : list float => int_of_float64 <$> cs) <$> css)).
Proof.
  split.
  - intros data Hd. by destruct data.
  - intros css. rewrite parseBgpCommunities_shaped.
    + f_equal. rewrite <- list_fmap_compose. apply list_fmap_ext.
      intros _ cs _. simpl. rewrite <- list_fmap_compose. done.
    + simpl. apply forallb_forall. intros c Hc.
      apply in_map_iff in Hc as (cs & <- & _).
      apply forallb_forall. intros x Hx.
      by apply in_map_iff in Hx as (f & <- & _).
Qed.

(** No communities, and two communities. *)
Lemma parseBgpCommunities_absent_or_shaped_witness :
  birdwatcher.parseBgpCommunities VNull = Ret []
  /\ birdwatcher.parseBgpCommunities
       (VArray [VArray [VNumber 65000; VNumber 1]; VArray []])
     = Ret [[65000; 1]; []].
Proof.
  split.
  - apply (proj1 parseBgpCommunities_absent_or_shaped VNull). reflexivity.
  - exact (proj2 parseBgpCommunities_absent_or_shaped
             [[65000%float; 1%float]; []]).
Defined.

(* ===================================================================== *)
(** ** BGP attribute blocks                                               *)
(* ===================================================================== *)

(** C5, as the specification states it, fails: a block without [local_pref] (and
    without [origin]) does not parse to defaults, the unchecked assertion
    on [local_pref] stops the parse.  And a [local_pref] that
    [strconv.Atoi] rejects as out of range does not give LocalPref 0: the
    block parses, with the largest [int] as LocalPref. *)
Lemma parseRouteBgpInfo_no_local_pref_panics :
  ~ returns (birdwatcher.parseRouteBgpInfo bgp_block_no_local_pref)
  /\ birdwatcher.parseRouteBgpInfo bgp_block_no_local_pref
     = Panic {| concrete := KNil; asserted := KString |}
  /\ strconv_Atoi "99999999999999999999"
     = (maxInt64, Some (ErrRange "Atoi" "99999999999999999999"))
  /\ (bgp ← birdwatcher.parseRouteBgpInfo bgp_block_huge_local_pref;
      Ret (api.BgpInfo.LocalPref bgp))
     = Ret 9223372036854775807.
Proof.
  split; [|split; [|split]]; try (vm_compute; reflexivity).
  intros [r Hr]. vm_compute in Hr. discriminate.
Qed.

(** C5, amended.  For a BGP attribute block whose [as_path] is a list,
    whose [communities] and [large_communities] are absent or lists of
    lists of numbers, and whose [local_pref] is a string,
    [parseRouteBgpInfo] returns, with Origin "unknown" when [origin] is
    absent or not a string, Med 0 when [med] is absent or not a string,
    and LocalPref 0 when the [local_pref] string is not a decimal numeral
    (an optional sign and one or more digits); for a numeral, LocalPref
    is the [int] nearest to the number it denotes, so that a numeral out
    of the range of [int] gives the largest or the smallest [int], not 0. *)
Theorem parseRouteBgpInfo_defaults (bgpData : gmap string value)
    (localPref : string) :
  is_slice (index bgpData "as_path") = true ->
  communities_shaped (index bgpData "communities") = true ->
  communities_shaped (index bgpData "large_communities") = true ->
  index bgpData "local_pref" = VString localPref ->
  exists bgp,
    birdwatcher.parseRouteBgpInfo (VObject bgpData) = Ret bgp
    /\ (is_string (index bgpData "origin") = false ->
        api.BgpInfo.Origin bgp = "unknown")
    /\ (is_string (index bgpData "med") = false -> api.BgpInfo.Med bgp = 0)
    /\ (numeric localPref = false -> api.BgpInfo.LocalPref bgp = 0)
    /\ api.BgpInfo.LocalPref bgp
       = match numeral localPref with
         | Some v => nearest_int v
         | None => 0
         end.
Proof.
  intros Hp Hc Hl Hlp.
  unfold birdwatcher.parseRouteBgpInfo. simpl.
  destruct (index bgpData "as_path") as [| | | |path|] eqn:Hpath; try done.
  rewrite parseIntList_slice. simpl.
  destruct (parseBgpCommunities_returns _ Hc) as [cs ->].
  destruct (parseBgpCommunities_returns _ Hl) as [lcs ->]. simpl.
  rewrite Hlp. simpl.
  destruct (strconv_Atoi localPref) as [lp e] eqn:Hatoi.
  eexists. split; [reflexivity|]. simpl. repeat split.
  - by destruct (index bgpData "origin").
  - by destruct (index bgpData "med").
  - intros Hn. rewrite (strconv_Atoi_not_numeric _ Hn) in Hatoi. congruence.
  - by rewrite <- strconv_Atoi_numeral, Hatoi.
Qed.

(** A block without [origin] and [med], with [local_pref] "high". *)
Lemma parseRouteBgpInfo_defaults_witness :
  exists bgp,
    birdwatcher.parseRouteBgpInfo (VObject bgp_block_defaults) = Ret bgp
    /\ api.BgpInfo.Origin bgp = "unknown"
    /\ api.BgpInfo.Med bgp = 0
    /\ api.BgpInfo.LocalPref bgp = 0.
Proof.
  destruct (parseRouteBgpInfo_defaults bgp_block_defaults "high")
    as (bgp & Hr & Ho & Hm & Hl & _); try (vm_compute; reflexivity).
  exists bgp. split; [exact Hr|].
  split; [apply Ho; vm_compute; reflexivity|].
  split; [apply Hm; vm_compute; reflexivity|].
  apply Hl. vm_compute. reflexivity.
Defined.

Example bgp_block_defaults_run :
  birdwatcher.parseRouteBgpInfo (VObject bgp_block_defaults)
  = Ret {| api.BgpInfo.Origin := "unknown";
           api.BgpInfo.AsPath := [65001; 0];
           api.BgpInfo.NextHop := "unknown";
           api.BgpInfo.LocalPref := 0;
           api.BgpInfo.Med := 0;
           api.BgpInfo.Communities := [[65000; 1]];
           api.BgpInfo.LargeCommunities := [] |}.
Proof. vm_compute. reflexivity. Qed.

Example parseNeighbours_run :
  (fun o => match o with
            | Ret (ns, e) =>
                Some ((fun n => (api.Neighbour.Id n, api.Neighbour.Asn n,
                                 api.Neighbour.LastError n,
                                 api.Neighbour.Uptime n)) <$> ns, e)
            | Panic _ => None
            end)
    (birdwatcher.parseNeighbours reverse_order (ticking t_2020_1h)
       neighbours_payload utc_config)
  = Some ([("R1", 65001, "", 3600001000000);
           ("R2", 65002, "", 3600000000000)], None).
Proof. vm_compute. reflexivity. Qed.

(* ===================================================================== *)
(** ** Order on strings and [sort.Sort]                                   *)
(* ===================================================================== *)

Lemma string_lt_spec (a b : string) :
  string_lt a b = true <-> String.compare a b = Lt.
Proof.
  unfold string_lt, String.ltb. by destruct (String.compare a b).
Qed.

Lemma string_lt_trans (a b c : string) :
  string_lt a b = true -> string_lt b c = true -> string_lt a c = true.
Proof.
  rewrite !string_lt_spec.
  change String.compare with OrderedTypeEx.String_as_OT.cmp.
  rewrite !OrderedTypeEx.String_as_OT.cmp_lt.
  apply OrderedTypeEx.String_as_OT.lt_trans.
Qed.

Lemma string_lt_asym (a b : string) :
  string_lt a b = true -> string_lt b a = false.
Proof.
  intros Hab. apply not_true_is_false. intros Hba.
  apply string_lt_spec in Hab, Hba.
  rewrite String.compare_antisym, Hba in Hab. discriminate.
Qed.

Lemma string_lt_irrefl (a : string) : string_lt a a = false.
Proof.
  destruct (string_lt a a) eqn:H; [|done].
  by rewrite (string_lt_asym _ _ H) in H.
Qed.

Lemma string_lt_total (a b : string) :
  string_lt a b = false -> string_lt b a = false -> a = b.
Proof.
  intros Hab Hba. apply String.compare_eq_iff.
  destruct (String.compare a b) eqn:Hc; [done|..].
  - apply string_lt_spec in Hc. congruence.
  - assert (String.compare b a = Lt) as Hc'.
    { rewrite String.compare_antisym, Hc. done. }
    apply string_lt_spec in Hc'. congruence.
Qed.

Section Sort.
Context {A : Type}.
Implicit Types (less : A -> A -> bool) (l : list A).

Lemma sort_insert_Permutation less x l : sort_insert less x l ≡ₚ x :: l.
Proof.
  induction l as [|y l IH]; simpl; [done|].
  destruct (less y x); [|done]. rewrite IH. apply Permutation_swap.
Qed.

Lemma sort_Sort_Permutation less l : sort_Sort less l ≡ₚ l.
Proof.
  induction l as [|x l IH]; simpl; [done|].
  rewrite sort_insert_Permutation. by rewrite IH.
Qed.

(** With an asymmetric [Less] the result has no element out of order. *)
Lemma sort_insert_in_order less x l :
  (forall a b, less a b = true -> less b a = false) ->
  in_order less l -> in_order less (sort_insert less x l).
Proof.
  intros Hasym. unfold in_order.
  induction l as [|y l IH]; intros Hl; simpl.
  - repeat constructor.
  - destruct (less y x) eqn:Hyx.
    + apply Sorted_inv in Hl as [Hl Hhd]. constructor; [by apply IH|].
      destruct l as [|z l]; simpl.
      * constructor. by apply Hasym.
      * destruct (less z x); constructor.
        -- by apply HdRel_inv in Hhd.
        -- by apply Hasym.
    + constructor; [done|]. by constructor.
Qed.

Lemma sort_Sort_in_order less l :
  (forall a b, less a b = true -> less b a = false) ->
  in_order less (sort_Sort less l).
Proof.
  intros Hasym. induction l as [|x l IH]; simpl; [constructor|].
  by apply sort_insert_in_order.
Qed.

(** Sorting commutes with a map that [Less] does not see. *)
Lemma sort_insert_fmap {B : Type} (g : A -> B) less
    (less' : B -> B -> bool) x l :
  (forall a b, less' (g a) (g b) = less a b) ->
  sort_insert less' (g x) (g <$> l) = g <$> sort_insert less x l.
Proof.
  intros Hg. induction l as [|y l IH]; simpl; [done|].
  rewrite Hg. destruct (less y x); csimpl; [|done].
  f_equal. apply IH.
Qed.

Lemma sort_Sort_fmap {B : Type} (g : A -> B) less (less' : B -> B -> bool) l :
  (forall a b, less' (g a) (g b) = less a b) ->
  sort_Sort less' (g <$> l) = g <$> sort_Sort less l.
Proof.
  intros Hg. induction l as [|x l IH]; [done|].
  change (sort_insert less' (g x) (sort_Sort less' (g <$> l))
          = g <$> sort_insert less x (sort_Sort less l)).
  rewrite IH. by apply sort_insert_fmap.
Qed.

(** *** Sorting by a string key *)

Context (key : A -> string).

Lemma key_sorted_strongly l :
  in_order (key_less key) l ->
  NoDup (key <$> l) ->
  StronglySorted (fun a b => key_less key a b = true) l.
Proof.
  unfold in_order. intros Hs Hnd.
  assert (Transitive (fun a b : A => key_less key b a = false)) as Htrans.
  { intros a b c Hab Hbc. unfold key_less in *.
    destruct (string_lt (key c) (key a)) eqn:Hca; [|done].
    destruct (string_lt (key b) (key c)) eqn:Hbc'.
    - by rewrite (string_lt_trans _ _ _ Hbc' Hca) in Hab.
    - rewrite <- (string_lt_total _ _ Hbc Hbc') in Hab. congruence. }
  apply Sorted_StronglySorted in Hs; [|done].
  induction Hs as [|a l Hs IH Hall]; [constructor|].
  simpl in Hnd. apply NoDup_cons in Hnd as [Hnotin Hnd].
  constructor; [by apply IH|].
  apply Forall_forall. intros b Hb.
  rewrite Forall_forall in Hall. specialize (Hall b Hb). unfold key_less in *.
  destruct (string_lt (key a) (key b)) eqn:Hab; [done|].
  destruct Hnotin. rewrite (string_lt_total _ _ Hab Hall).
  apply list_elem_of_fmap. by exists b.
Qed.

Lemma sort_Sort_key_strongly l :
  NoDup (key <$> l) ->
  StronglySorted (fun a b => key_less key a b = true) (sort_Sort (key_less key) l).
Proof.
  intros Hnd. apply key_sorted_strongly.
  - apply sort_Sort_in_order. intros a b. apply string_lt_asym.
  - by rewrite sort_Sort_Permutation.
Qed.

(** With distinct keys the sorted list does not depend on the order of
    the input. *)
Lemma sort_Sort_key_unique l1 l2 :
  l1 ≡ₚ l2 -> NoDup (key <$> l1) ->
  sort_Sort (key_less key) l1 = sort_Sort (key_less key) l2.
Proof.
  intros Hp Hnd.
  assert (AntiSymm (=) (fun a b : A => key_less key a b = true)) as Hanti.
  { intros a b Hab Hba. unfold key_less in *.
    by rewrite (string_lt_asym _ _ Hab) in Hba. }
  apply (StronglySorted_unique (fun a b : A => key_less key a b = true)).
  - by apply sort_Sort_key_strongly.
  - apply sort_Sort_key_strongly. by rewrite <- Hp.
  - by rewrite !sort_Sort_Permutation.
Qed.
End Sort.

(* ===================================================================== *)
(** ** Neighbours                                                         *)
(* ===================================================================== *)

(** Related lists stay related, position by position, when both are
    sorted with orders that the relation does not tell apart. *)
Lemma sort_insert_Forall2 {A B : Type} (R : A -> B -> Prop)
    (less : A -> A -> bool) (less' : B -> B -> bool) x y l k :
  (forall a b a' b', R a b -> R a' b' -> less a a' = less' b b') ->
  R x y -> Forall2 R l k ->
  Forall2 R (sort_insert less x l) (sort_insert less' y k).
Proof.
  intros Hinv Hxy HF.
  induction HF as [|a b l k Hab HF IH]; simpl; [by repeat constructor|].
  rewrite (Hinv a b x y Hab Hxy).
  destruct (less' b y); repeat (constructor; try done).
Qed.

Lemma sort_Sort_Forall2 {A B : Type} (R : A -> B -> Prop)
    (less : A -> A -> bool) (less' : B -> B -> bool) l k :
  (forall a b a' b', R a b -> R a' b' -> less a a' = less' b b') ->
  Forall2 R l k ->
  Forall2 R (sort_Sort less l) (sort_Sort less' k).
Proof.
  intros Hinv HF. induction HF as [|a b l k Hab HF IH]; simpl; [constructor|].
  by apply sort_insert_Forall2.
Qed.

(** *** Loops that read the clock *)

Section Counted.
Context {A B : Type} (f : nat -> A -> outcome B).
Implicit Types (l : list A) (ys : list B).

Lemma visit_collects : collects (fun v : nat * A => f v.1 v.2) (visit f).
Proof. by intros acc v. Qed.

Lemma visits_lookup l k : visits l !! k = (fun x => (k, x)) <$> l !! k.
Proof. apply list_lookup_imap. Qed.

(** A loop that counts its reads is the collecting loop over the
    elements numbered from the count it starts with. *)
Lemma for_range_counts_from body l acc k :
  counts f body ->
  for_range l body (acc, k)
  = for_range (imap (fun i x => ((k + i)%nat, x)) l) (visit f) acc
    ≫= fun ys => Ret (ys, (k + length l)%nat).
Proof.
  intros Hb. revert acc k.
  induction l as [|x l IH]; intros acc k; simpl.
  - by rewrite Nat.add_0_r.
  - rewrite Hb. unfold visit. simpl. rewrite Nat.add_0_r.
    destruct (f k x) as [y|e]; simpl; [|done].
    rewrite IH, Nat.add_succ_r. simpl.
    rewrite (imap_ext (fun i x => (S (k + i), x))
               ((fun i x => ((k + i)%nat, x)) ∘ S) l); [done|].
    intros i z _. simpl. by rewrite Nat.add_succ_r.
Qed.

Lemma for_range_counts body l :
  counts f body ->
  for_range l body ([], 0%nat)
  = for_range (visits l) (visit f) [] ≫= fun ys => Ret (ys, length l).
Proof. intros Hb. exact (for_range_counts_from body l [] 0 Hb). Qed.

(** What the loop has collected, read by read. *)
Lemma visits_collected l ys :
  Forall2 (fun v y => f v.1 v.2 = Ret y) (visits l) ys
  <-> length ys = length l
      /\ forall k x y, l !! k = Some x -> ys !! k = Some y -> f k x = Ret y.
Proof.
  rewrite Forall2_same_length_lookup. unfold visits. rewrite length_imap.
  split.
  - intros [Hlen Hall]. split; [done|]. intros k x y Hx Hy.
    apply (Hall k (k, x) y); [|done]. by rewrite list_lookup_imap, Hx.
  - intros [Hlen Hall]. split; [done|]. intros k [k' x] y Hx Hy.
    rewrite list_lookup_imap in Hx.
    destruct (l !! k) as [x'|] eqn:Hl; [|done].
    injection Hx as <- <-. simpl. by apply Hall.
Qed.

(** One element on which the body panics at its read makes the loop
    panic. *)
Lemma for_range_counts_panics body l k x :
  counts f body ->
  l !! k = Some x -> panics (f k x) ->
  panics (for_range l body ([], 0%nat)).
Proof.
  intros Hb Hx Hp. rewrite (for_range_counts body l Hb).
  destruct (for_range_collect_panics (fun v : nat * A => f v.1 v.2)
              (visit f) (visits l) [] (k, x) visit_collects) as [e ->].
  - apply (list_elem_of_lookup_2 _ k). by rewrite visits_lookup, Hx.
  - done.
  - by eexists.
Qed.
End Counted.

Section Neighbours.
Context `{TimeLib}.
Implicit Types (now : time_Time) (config : birdwatcher.Config).

Local Ltac case_value v :=
  destruct v eqn:?; simpl in *; try discriminate; try (by eexists).

Lemma parseNeighbour_protocol_ok now config id proto :
  protocol_ok proto = true ->
  returns (birdwatcher.parseNeighbour now config id proto).
Proof.
  unfold protocol_ok, birdwatcher.parseNeighbour, birdwatcher.int_float64.
  intros Hok. case_value proto.
  case_value (index m "routes").
  repeat (apply andb_prop in Hok as [Hok ?]).
  case_value (index m "neighbor_address").
  case_value (index m "neighbor_as").
  case_value (index m "state").
  case_value (index m "description").
  case_value (index m0 "imported").
  case_value (index m0 "exported").
  case_value (index m0 "filtered").
  case_value (index m0 "preferred").
Qed.

Lemma parseNeighbour_protocol_bad now config id proto :
  protocol_ok proto = false ->
  panics (birdwatcher.parseNeighbour now config id proto).
Proof.
  unfold protocol_ok, birdwatcher.parseNeighbour, birdwatcher.int_float64.
  intros Hok. case_value proto.
  case_value (index m "routes").
  case_value (index m "neighbor_address").
  case_value (index m "neighbor_as").
  case_value (index m "state").
  case_value (index m "description").
  case_value (index m0 "imported").
  case_value (index m0 "exported").
  case_value (index m0 "filtered").
  case_value (index m0 "preferred").
Qed.

(** What a parsed neighbour keeps of its entry, and how it depends on the
    instant of the clock read and on the configuration. *)
Lemma parseNeighbour_ret now config id proto n :
  birdwatcher.parseNeighbour now config id proto = Ret n ->
  api.Neighbour.Id n = id
  /\ retime_neighbour now config n = n
  /\ forall now' config',
       birdwatcher.parseNeighbour now' config' id proto
       = Ret (retime_neighbour now' config' n).
Proof.
  unfold birdwatcher.parseNeighbour, birdwatcher.int_float64.
  intros Hr. case_value proto.
  case_value (index m "routes").
  case_value (index m "neighbor_address").
  case_value (index m "neighbor_as").
  case_value (index m "state").
  case_value (index m "description").
  case_value (index m0 "imported").
  case_value (index m0 "exported").
  case_value (index m0 "filtered").
  case_value (index m0 "preferred").
  injection Hr as <-. done.
Qed.

(** The loop body of [parseNeighbours] collects [parseNeighbour], each
    entry at its own clock read. *)
Lemma parseNeighbours_counts (clock : nat -> time_Time) config :
  counts (fun k (x : string * value) =>
            birdwatcher.parseNeighbour (clock k) config x.1 x.2)
    (fun '(neighbours, reads) '(protocolId, proto) =>
       neighbour ←
         birdwatcher.parseNeighbour (clock reads) config protocolId proto;
       Ret (go_append neighbours neighbour, S reads)).
Proof. by intros acc k [id proto]. Qed.

Lemma parseNeighbours_error_nil rho (clock : nat -> time_Time) bird config
    ns e :
  birdwatcher.parseNeighbours rho clock bird config = Ret (ns, e) -> e = None.
Proof.
  unfold birdwatcher.parseNeighbours.
  destruct (assert_map (index bird "protocols")); simpl; [|done].
  destruct (for_range _ _ _) as [[ys k]|]; simpl; [|done]. congruence.
Qed.

(** [parseNeighbours] returns what its loop has collected, sorted. *)
Lemma parseNeighbours_collected rho (clock : nat -> time_Time) bird config
    protocols ys :
  index bird "protocols" = VObject protocols ->
  length ys = length (rho protocols) ->
  (forall k x y,
     rho protocols !! k = Some x -> ys !! k = Some y ->
     birdwatcher.parseNeighbour (clock k) config x.1 x.2 = Ret y) ->
  birdwatcher.parseNeighbours rho clock bird config
  = Ret (sort_Sort api.Neighbours_Less ys, None).
Proof.
  intros Hb Hlen Hall. unfold birdwatcher.parseNeighbours. rewrite Hb. simpl.
  rewrite (for_range_counts _ _ _ (parseNeighbours_counts clock config)).
  rewrite (for_range_collect_nil _ _ _ ys (visit_collects _)); [done|].
  by apply (visits_collected
           (fun k (x : string * value) =>
              birdwatcher.parseNeighbour (clock k) config x.1 x.2)).
Qed.

(** What the loop of [parseNeighbours] has collected when it returns. *)
Lemma parseNeighbours_inv rho (clock : nat -> time_Time) bird config
    protocols ns e :
  index bird "protocols" = VObject protocols ->
  birdwatcher.parseNeighbours rho clock bird config = Ret (ns, e) ->
  e = None
  /\ exists ys,
       ns = sort_Sort api.Neighbours_Less ys
       /\ length ys = length (rho protocols)
       /\ forall k x y,
            rho protocols !! k = Some x -> ys !! k = Some y ->
            birdwatcher.parseNeighbour (clock k) config x.1 x.2 = Ret y.
Proof.
  intros Hb. unfold birdwatcher.parseNeighbours. rewrite Hb. simpl.
  rewrite (for_range_counts _ _ _ (parseNeighbours_counts clock config)).
  destruct (for_range (visits (rho protocols)) _ []) as [ys|] eqn:Hloop;
    simpl; [|done].
  intros [= <- <-]. split; [done|]. exists ys. split; [done|].
  apply (visits_collected
           (fun k (x : string * value) =>
              birdwatcher.parseNeighbour (clock k) config x.1 x.2)).
  exact (for_range_collect_nil_inv _ _ _ _ (visit_collects _) Hloop).
Qed.

(** The same, entry by entry. *)
Lemma parseNeighbours_entries rho (clock : nat -> time_Time) bird config
    protocols ns e :
  range_valid rho ->
  index bird "protocols" = VObject protocols ->
  birdwatcher.parseNeighbours rho clock bird config = Ret (ns, e) ->
  e = None
  /\ exists ys,
       ns = sort_Sort api.Neighbours_Less ys
       /\ Forall2
            (fun x y =>
               exists k, (k < size protocols)%nat
                         /\ birdwatcher.parseNeighbour (clock k) config x.1 x.2
                            = Ret y)
            (rho protocols) ys.
Proof.
  intros Hv Hb Hr.
  destruct (parseNeighbours_inv rho clock bird config protocols ns e Hb Hr)
    as (He & ys & Hns & Hlen & Hall).
  split; [done|]. exists ys. split; [done|].
  apply Forall2_same_length_lookup_2; [done|].
  intros k x y Hx Hy. exists k. split; [|by apply Hall].
  apply lookup_lt_Some in Hx.
  by rewrite (Hv protocols), length_map_to_list in Hx.
Qed.
End Neighbours.

Lemma map_to_list_valid {K V : Type} `{Countable K} :
  range_valid (map_to_list : range_order K V).
Proof. by intros m. Qed.

Lemma reverse_order_valid {K V : Type} `{Countable K} :
  range_valid (reverse_order : range_order K V).
Proof. intros m. apply reverse_Permutation. Qed.

Lemma range_valid_elem {K V : Type} `{Countable K} (rho : range_order K V)
    m k v :
  range_valid rho -> m !! k = Some v -> (k, v) ∈ rho m.
Proof. intros Hv Hk. rewrite (Hv m). by apply elem_of_map_to_list. Qed.

Lemma range_valid_NoDup {K V : Type} `{Countable K} (rho : range_order K V) m :
  range_valid rho -> NoDup (rho m).*1.
Proof. intros Hv. rewrite (Hv m). apply NoDup_fst_map_to_list. Qed.

(** C2, as the specification states it, fails: for a payload in which one session
    lacks the neighbour address, [parseNeighbours] returns no error value;
    the unchecked assertion on the field panics. *)
Lemma parseNeighbours_missing_address_no_error :
  protocol_ok (protocol_entry None 65002 (VString "2020-01-01 00:00:00") None)
  = false
  /\ ~ (exists ns err,
          birdwatcher.parseNeighbours map_to_list (at_instant t_2020)
            neighbours_payload_no_address utc_config = Ret (ns, Some err))
  /\ birdwatcher.parseNeighbours map_to_list (at_instant t_2020)
       neighbours_payload_no_address utc_config
     = Panic {| concrete := KNil; asserted := KString |}.
Proof.
  assert (birdwatcher.parseNeighbours map_to_list (at_instant t_2020)
            neighbours_payload_no_address utc_config
          = Panic {| concrete := KNil; asserted := KString |}) as Hp
    by (vm_compute; reflexivity).
  split; [vm_compute; reflexivity|]. split; [|exact Hp].
  intros (ns & err & Hr). rewrite Hp in Hr. discriminate.
Qed.

(** C2, amended.  For every raw neighbours payload in which some protocol
    entry misses or mistypes a mandatory field (the routes object, the
    neighbour address, ASN, state, description, or one of the four route
    counters), [parseNeighbours] fails as a whole, in whatever order the
    entries are visited and whatever the clock reads: it panics on the
    unchecked type assertion, and so returns neither a list of
    neighbours, partial or not, nor an error value. *)
Theorem parseNeighbours_mandatory_field_panics `{TimeLib}
    (rho : range_order string value) (clock : nat -> time_Time)
    (bird : gmap string value) (config : birdwatcher.Config)
    (protocols : gmap string value) (id : string) (proto : value) :
  range_valid rho ->
  index bird "protocols" = VObject protocols ->
  protocols !! id = Some proto ->
  protocol_ok proto = false ->
  panics (birdwatcher.parseNeighbours rho clock bird config)
  /\ ~ returns (birdwatcher.parseNeighbours rho clock bird config).
Proof.
  intros Hv Hb Hid Hbad.
  assert (panics (birdwatcher.parseNeighbours rho clock bird config)) as Hp.
  { unfold birdwatcher.parseNeighbours. rewrite Hb. simpl.
    pose proof (range_valid_elem rho protocols id proto Hv Hid) as Hin.
    apply list_elem_of_lookup_1 in Hin as [k Hk].
    destruct (for_range_counts_panics _ _ (rho protocols) k (id, proto)
                (parseNeighbours_counts clock config) Hk) as [e ->].
    - by apply parseNeighbour_protocol_bad.
    - by eexists. }
  split; [exact Hp|]. destruct Hp as [e He]. intros [r Hr]. congruence.
Qed.

(** The payload without a neighbour address, visited in reverse order
    while the clock ticks. *)
Lemma parseNeighbours_mandatory_field_panics_witness :
  panics (birdwatcher.parseNeighbours reverse_order (ticking t_2020)
            neighbours_payload_no_address utc_config).
Proof.
  refine (proj1 (parseNeighbours_mandatory_field_panics reverse_order
                   (ticking t_2020) neighbours_payload_no_address utc_config
                   _ "R2" _ _ _ _ _)).
  - apply reverse_order_valid.
  - vm_compute. reflexivity.
  - vm_compute. reflexivity.
  - vm_compute. reflexivity.
Defined.

(* ===================================================================== *)
(** ** Routes                                                             *)
(* ===================================================================== *)

Lemma Routes_Less_asym (a b : api.Route.t) :
  api.Routes_Less a b = true -> api.Routes_Less b a = false.
Proof.
  unfold api.Routes_Less. intros Hab.
  apply orb_prop in Hab as [Hlt|Heq].
  - rewrite (string_lt_asym _ _ Hlt). simpl.
    destruct (String.eqb_spec (api.Route.Network b) (api.Route.Network a))
      as [Heq|]; [|done].
    rewrite Heq, string_lt_irrefl in Hlt. done.
  - apply andb_prop in Heq as [Heq Hlt].
    apply String.eqb_eq in Heq. rewrite Heq, string_lt_irrefl. simpl.
    rewrite (string_lt_asym _ _ Hlt). apply andb_false_r.
Qed.

Section Routes.
Context `{TimeLib}.
Implicit Types (now : time_Time) (config : birdwatcher.Config).

Local Ltac case_value v :=
  destruct v eqn:?; simpl in *; try discriminate; try (by eexists).

Lemma parseRoute_ret now config data r :
  birdwatcher.parseRoute now config data = Ret r ->
  retime_route now config r = r
  /\ forall now' config',
       birdwatcher.parseRoute now' config' data
       = Ret (retime_route now' config' r).
Proof.
  unfold birdwatcher.parseRoute, birdwatcher.int_float64.
  intros Hr. case_value data.
  destruct (birdwatcher.mustStringList (index m "type"));
    simpl in *; [|done].
  destruct (birdwatcher.parseRouteBgpInfo (index m "bgp"));
    simpl in *; [|done].
  case_value (index m "network").
  case_value (index m "from_protocol").
  case_value (index m "interface").
  case_value (index m "gateway").
  case_value (index m "metric").
  injection Hr as <-. done.
Qed.

(** The loop body of [parseRoutes] collects [parseRoute], each element at
    its own clock read. *)
Lemma parseRoutes_counts (clock : nat -> time_Time) config :
  counts (fun k data => birdwatcher.parseRoute (clock k) config data)
    (fun '(routes, reads) data =>
       route ← birdwatcher.parseRoute (clock reads) config data;
       Ret (go_append routes route, S reads)).
Proof. by intros acc k data. Qed.

(** [parseRoutes] returns what its loop has collected, sorted. *)
Lemma parseRoutes_collected (clock : nat -> time_Time) bird config
    birdRoutes ys :
  index bird "routes" = VArray birdRoutes ->
  length ys = length birdRoutes ->
  (forall k x y,
     birdRoutes !! k = Some x -> ys !! k = Some y ->
     birdwatcher.parseRoute (clock k) config x = Ret y) ->
  birdwatcher.parseRoutes clock bird config
  = Ret (sort_Sort api.Routes_Less ys, None).
Proof.
  intros Hb Hlen Hall. unfold birdwatcher.parseRoutes. rewrite Hb. simpl.
  rewrite (for_range_counts _ _ _ (parseRoutes_counts clock config)).
  rewrite (for_range_collect_nil _ _ _ ys (visit_collects _)); [done|].
  by apply (visits_collected
           (fun k data => birdwatcher.parseRoute (clock k) config data)).
Qed.

(** What the loop of [parseRoutes] has collected when it returns. *)
Lemma parseRoutes_inv (clock : nat -> time_Time) bird config rs e :
  birdwatcher.parseRoutes clock bird config = Ret (rs, e) ->
  e = None
  /\ exists birdRoutes ys,
       index bird "routes" = VArray birdRoutes
       /\ rs = sort_Sort api.Routes_Less ys
       /\ length ys = length birdRoutes
       /\ forall k x y,
            birdRoutes !! k = Some x -> ys !! k = Some y ->
            birdwatcher.parseRoute (clock k) config x = Ret y.
Proof.
  unfold birdwatcher.parseRoutes.
  destruct (index bird "routes") as [| | | |birdRoutes|] eqn:Hb;
    try discriminate. simpl.
  rewrite (for_range_counts _ _ _ (parseRoutes_counts clock config)).
  destruct (for_range (visits birdRoutes) _ []) as [ys|] eqn:Hloop;
    simpl; [|done].
  intros [= <- <-]. split; [done|]. exists birdRoutes, ys.
  split; [done|]. split; [done|].
  apply (visits_collected
           (fun k data => birdwatcher.parseRoute (clock k) config data)).
  exact (for_range_collect_nil_inv _ _ _ _ (visit_collects _) Hloop).
Qed.


(** [parseRoutes] with two clocks. *)
Lemma parseRoutes_twice (clock1 clock2 : nat -> time_Time) bird config
    config' birdRoutes rs1 e :
  index bird "routes" = VArray birdRoutes ->
  birdwatcher.parseRoutes clock1 bird config = Ret (rs1, e) ->
  in_order api.Routes_Less rs1
  /\ exists rs2,
       birdwatcher.parseRoutes clock2 bird config' = Ret (rs2, e)
       /\ Forall2
            (fun r1 r2 =>
               exists k, (k < length birdRoutes)%nat
                         /\ retime_route (clock1 k) config r1 = r1
                         /\ r2 = retime_route (clock2 k) config' r1)
            rs1 rs2.
Proof.
  intros Hb Hr.
  destruct (parseRoutes_inv clock1 bird config rs1 e Hr)
    as (-> & birdRoutes' & ys & Hb' & -> & Hlen & Hall).
  rewrite Hb in Hb'. injection Hb' as <-.
  split; [apply sort_Sort_in_order, Routes_Less_asym|].
  exists (sort_Sort api.Routes_Less
            (imap (fun k y => retime_route (clock2 k) config' y) ys)).
  split.
  - apply (parseRoutes_collected clock2 bird config' birdRoutes);
      [done|by rewrite length_imap|].
    intros k x y Hx Hy. rewrite list_lookup_imap in Hy.
    destruct (ys !! k) as [y1|] eqn:Hy1; [|done]. injection Hy as <-.
    by destruct (parseRoute_ret _ _ _ _ (Hall k x y1 Hx Hy1)) as [_ ->].
  - apply sort_Sort_Forall2.
    + intros a b a' b' (k & _ & _ & ->) (k' & _ & _ & ->). done.
    + apply Forall2_same_length_lookup_2; [by rewrite length_imap|].
      intros k y1 y2 Hy1 Hy2. rewrite list_lookup_imap, Hy1 in Hy2.
      injection Hy2 as <-. exists k.
      destruct (lookup_lt_is_Some_2 birdRoutes k) as [x Hx].
      { rewrite <- Hlen. by eapply lookup_lt_Some. }
      split; [by eapply lookup_lt_Some|]. split; [|done].
      by destruct (parseRoute_ret _ _ _ _ (Hall k x y1 Hx Hy1)) as [-> _].
Qed.
End Routes.

Section NeighboursTwice.
Context `{TimeLib}.
Implicit Types (now : time_Time) (config : birdwatcher.Config).

(** The identifiers collected by the loop are the keys of the map. *)
Lemma parseNeighbours_loop_ids (P : nat -> Prop) (clock : nat -> time_Time)
    config (l : list (string * value)) ys :
  Forall2
    (fun x y =>
       exists k, P k /\ birdwatcher.parseNeighbour (clock k) config x.1 x.2
                        = Ret y)
    l ys ->
  api.Neighbour.Id <$> ys = l.*1.
Proof.
  induction 1 as [|x y l ys (k & _ & Hxy) _ IH]; csimpl; [done|].
  apply parseNeighbour_ret in Hxy as [-> _]. by rewrite IH.
Qed.


(** [parseNeighbours] with two clocks, the map visited in two orders. *)
Lemma parseNeighbours_twice rho1 rho2 (clock1 clock2 : nat -> time_Time)
    bird config config' protocols ns1 e :
  range_valid rho1 -> range_valid rho2 ->
  index bird "protocols" = VObject protocols ->
  birdwatcher.parseNeighbours rho1 clock1 bird config = Ret (ns1, e) ->
  exists ns2,
    birdwatcher.parseNeighbours rho2 clock2 bird config' = Ret (ns2, e)
    /\ Forall2
         (fun n1 n2 =>
            exists k1 k2,
              (k1 < size protocols)%nat /\ (k2 < size protocols)%nat
              /\ retime_neighbour (clock1 k1) config n1 = n1
              /\ n2 = retime_neighbour (clock2 k2) config' n1)
         ns1 ns2.
Proof.
  intros Hv1 Hv2 Hb Hr.
  destruct (parseNeighbours_entries rho1 clock1 bird config protocols ns1 e
              Hv1 Hb Hr) as (-> & ys1 & -> & HF1).
  assert (NoDup (api.Neighbour.Id <$> ys1)) as Hnd.
  { rewrite (parseNeighbours_loop_ids _ _ _ _ _ HF1), (Hv1 protocols).
    apply NoDup_fst_map_to_list. }
  assert (rho1 protocols ≡ₚ rho2 protocols) as Hp
    by (by rewrite (Hv1 protocols), (Hv2 protocols)).
  destruct (Permutation.Permutation_Forall2 Hp HF1) as (zs & Hpz & HF2).
  assert (length zs = size protocols) as Hlen.
  { rewrite <- (Forall2_length _ _ _ HF2), (Hv2 protocols).
    apply length_map_to_list. }
  exists (sort_Sort api.Neighbours_Less
            (imap (fun k z => retime_neighbour (clock2 k) config' z) zs)).
  split.
  - apply (parseNeighbours_collected rho2 clock2 bird config' protocols);
      [done| |].
    { by rewrite length_imap, (Forall2_length _ _ _ HF2). }
    intros k x y Hx Hy. rewrite list_lookup_imap in Hy.
    destruct (zs !! k) as [z|] eqn:Hz; [|done]. injection Hy as <-.
    destruct (Forall2_lookup_lr _ _ _ _ _ _ HF2 Hx Hz) as (k1 & _ & Hxz).
    by destruct (parseNeighbour_ret _ _ _ _ _ Hxz) as (_ & _ & ->).
  - change api.Neighbours_Less with (key_less api.Neighbour.Id).
    rewrite (sort_Sort_key_unique api.Neighbour.Id ys1 zs Hpz Hnd).
    apply sort_Sort_Forall2.
    + intros a b a' b' (k1 & k2 & _ & _ & _ & ->)
        (k1' & k2' & _ & _ & _ & ->). done.
    + apply Forall2_same_length_lookup_2; [by rewrite length_imap|].
      intros k z y Hz Hy. rewrite list_lookup_imap, Hz in Hy.
      injection Hy as <-.
      destruct (lookup_lt_is_Some_2 (rho2 protocols) k) as [x Hx].
      { rewrite (Forall2_length _ _ _ HF2). by eapply lookup_lt_Some. }
      destruct (Forall2_lookup_lr _ _ _ _ _ _ HF2 Hx Hz) as (k1 & Hk1 & Hxz).
      exists k1, k. split; [done|].
      split; [rewrite <- Hlen; by eapply lookup_lt_Some|].
      split; [|done].
      by destruct (parseNeighbour_ret _ _ _ _ _ Hxz) as (_ & -> & _).
Qed.
End NeighboursTwice.


Example parseRoutes_run :
  (fun o => match o with
            | Ret (rs, e) =>
                Some ((fun r => (api.Route.Network r, api.Route.Gateway r,
                                 api.Route.Age r)) <$> rs, e)
            | Panic _ => None
            end)
    (birdwatcher.parseRoutes (ticking t_2020_1h) routes_payload utc_config)
  = Some ([("10.0.0.0/24", "10.0.0.1", maxDuration);
           ("10.0.0.0/24", "10.0.0.2", 3600001000000);
           ("192.168.0.0/24", "10.0.0.1", 3600000000000)], None).
Proof. vm_compute. reflexivity. Qed.

(* ===================================================================== *)
(** ** The routes store                                                   *)
(* ===================================================================== *)

Example both_cached_run :
  (fun p => (main.State <$> main.statusMap (main.store p),
             main.status_log p, main.clock p - t_2020)) both_cached
  = ({[ 1%nat := main.STATE_READY; 2%nat := main.STATE_READY ]},
     [(2%nat, 2); (2%nat, 1); (1%nat, 2); (1%nat, 1)], 5000000000).
Proof. vm_compute. reflexivity. Qed.

Example stats_run :
  main.Stats map_to_list (main.store both_cached)
  = {| main.TotalRoutes := {| main.Filtered := 1; main.Imported := 3 |};
       main.RouteServers :=
         [ {| main.RouteServerStats.Name := "rs2";
              main.RouteServerStats.Routes :=
                {| main.Filtered := 0; main.Imported := 1 |};
              main.RouteServerStats.State := "READY";
              main.RouteServerStats.UpdatedAt := t_2020 + 3000000000 |};
           {| main.RouteServerStats.Name := "rs1";
              main.RouteServerStats.Routes :=
                {| main.Filtered := 1; main.Imported := 2 |};
              main.RouteServerStats.State := "READY";
              main.RouteServerStats.UpdatedAt := t_2020 + 5000000000 |} ] |}.
Proof. vm_compute. reflexivity. Qed.

Lemma trace_of_go_append source log source' state :
  trace_of source (go_append log (source', state))
  = if decide (source' = source)
    then trace_of source log ++ [state]
    else trace_of source log.
Proof.
  unfold trace_of, go_append. rewrite filter_app, fmap_app.
  rewrite filter_cons, filter_nil. simpl.
  destruct (decide (source' = source)); simpl; [done|].
  by rewrite app_nil_r.
Qed.

Section UpdateSource.
Context (env : main.Backends).
Implicit Types (p : main.Process) (source : main.Source).

(** A backend that is being refreshed is skipped. *)
Lemma update_source_updating source p :
  main.State (main.status_of (main.store p) source) = main.STATE_UPDATING ->
  main.update_source env source p = p.
Proof. intros Hs. unfold main.update_source. by rewrite Hs. Qed.

(** The refresh of one backend leaves the others alone. *)
Lemma update_source_other source source' p :
  source' <> source ->
  view source (main.update_source env source' p) = view source p.
Proof.
  intros Hne. unfold main.update_source.
  destruct (_ =? _); [done|].
  unfold main.call_AllRoutes, view.
  destruct (main.AllRoutes (env source')) as [routes [err|]]; simpl;
    rewrite !trace_of_go_append, ?lookup_insert_ne by done;
    by destruct (decide (source' = source)).
Qed.

(** The refresh of a backend that is not being refreshed. *)
Lemma update_source_refresh source p :
  main.State (main.status_of (main.store p) source) <> main.STATE_UPDATING ->
  let p' := main.update_source env source p in
  let t := main.clock p + Z.max 0 (main.latency (env source)) in
  main.clock p' = t
  /\ main.status_log p'
     = main.status_log p
       ++ [(source, main.STATE_UPDATING); (source, refresh_result env source)]
  /\ main.statusMap (main.store p')
     = <[source := {| main.LastRefresh := t;
                      main.LastError := (main.AllRoutes (env source)).2;
                      main.State := refresh_result env source |}]>
         (main.statusMap (main.store p))
  /\ main.routesMap (main.store p')
     = match main.AllRoutes (env source) with
       | (_, Some _) => main.routesMap (main.store p)
       | (routes, None) => <[source := routes]> (main.routesMap (main.store p))
       end.
Proof.
  intros Hs. unfold main.update_source.
  destruct (Z.eqb_spec (main.State (main.status_of (main.store p) source))
              main.STATE_UPDATING) as [|_]; [done|].
  unfold main.call_AllRoutes, refresh_result.
  destruct (main.AllRoutes (env source)) as [routes [err|]]; simpl;
    unfold go_append; rewrite <- app_assoc, insert_insert_eq; done.
Qed.

Lemma update_source_configMap source p :
  main.configMap (main.store (main.update_source env source p))
  = main.configMap (main.store p).
Proof.
  unfold main.update_source. destruct (_ =? _); [done|].
  unfold main.call_AllRoutes.
  by destruct (main.AllRoutes (env source)) as [routes [err|]].
Qed.

Lemma update_source_lookup_log source p :
  main.lookup_log (main.update_source env source p) = main.lookup_log p.
Proof.
  unfold main.update_source. destruct (_ =? _); [done|].
  unfold main.call_AllRoutes.
  by destruct (main.AllRoutes (env source)) as [routes [err|]].
Qed.

Lemma update_source_clock source p :
  main.clock p <= main.clock (main.update_source env source p).
Proof.
  unfold main.update_source. destruct (_ =? _); [done|].
  unfold main.call_AllRoutes.
  destruct (main.AllRoutes (env source)) as [routes [err|]]; simpl; lia.
Qed.

(** No refresh removes a backend from [routesMap]. *)
Lemma update_source_keeps_key source source' p :
  is_Some (main.routesMap (main.store p) !! source) ->
  is_Some (main.routesMap (main.store (main.update_source env source' p))
             !! source).
Proof.
  intros Hk. unfold main.update_source. destruct (_ =? _); [done|].
  unfold main.call_AllRoutes.
  destruct (main.AllRoutes (env source')) as [routes [err|]]; simpl; [done|].
  destruct (decide (source' = source)) as [->|];
    [by rewrite lookup_insert_eq|by rewrite lookup_insert_ne].
Qed.

(** *** The whole loop *)

Implicit Types (l : list (main.Source * api.RoutesResponse.t)).

Lemma update_list_other source l p :
  source ∉ l.*1 -> view source (update_list env l p) = view source p.
Proof.
  revert p. induction l as [|[source' r] l IH]; intros p Hnot; [done|].
  csimpl in *. apply not_elem_of_cons in Hnot as [Hne Hnot].
  unfold update_list in *. simpl. rewrite IH by done.
  by apply update_source_other.
Qed.

Lemma update_list_clock l p : main.clock p <= main.clock (update_list env l p).
Proof.
  revert p. induction l as [|[source' r] l IH]; intros p; [done|].
  unfold update_list in *. simpl.
  etrans; [apply (update_source_clock source')|apply IH].
Qed.

Lemma update_list_configMap l p :
  main.configMap (main.store (update_list env l p))
  = main.configMap (main.store p).
Proof.
  revert p. induction l as [|[source' r] l IH]; intros p; [done|].
  unfold update_list in *. simpl. rewrite IH. apply update_source_configMap.
Qed.

Lemma update_list_lookup_log l p :
  main.lookup_log (update_list env l p) = main.lookup_log p.
Proof.
  revert p. induction l as [|[source' r] l IH]; intros p; [done|].
  unfold update_list in *. simpl. rewrite IH. apply update_source_lookup_log.
Qed.

Lemma update_list_keeps_key source l p :
  is_Some (main.routesMap (main.store p) !! source) ->
  is_Some (main.routesMap (main.store (update_list env l p)) !! source).
Proof.
  revert p. induction l as [|[source' r] l IH]; intros p Hk; [done|].
  unfold update_list in *. simpl. by apply IH, update_source_keeps_key.
Qed.

(** A backend that the loop visits once, and that is not being refreshed,
    is refreshed once. *)
Lemma update_list_self source l p :
  NoDup l.*1 -> source ∈ l.*1 ->
  main.State (main.status_of (main.store p) source) <> main.STATE_UPDATING ->
  exists t,
    main.clock p <= t <= main.clock (update_list env l p)
    /\ view source (update_list env l p)
       = (match main.AllRoutes (env source) with
          | (_, Some _) => main.routesMap (main.store p) !! source
          | (routes, None) => Some routes
          end,
          Some {| main.LastRefresh := t;
                  main.LastError := (main.AllRoutes (env source)).2;
                  main.State := refresh_result env source |},
          trace_of source (main.status_log p)
          ++ [main.STATE_UPDATING; refresh_result env source]).
Proof.
  revert p. induction l as [|[source' r] l IH]; intros p Hnd Hin Hs;
    csimpl in *; [by apply elem_of_nil in Hin|].
  apply NoDup_cons in Hnd as [Hnot Hnd].
  change (update_list env ((source', r) :: l) p)
    with (update_list env l (main.update_source env source' p)).
  destruct (decide (source' = source)) as [->|Hne].
  - destruct (update_source_refresh source p Hs) as (Hc & Hlog & Hst & Hrt).
    exists (main.clock p + Z.max 0 (main.latency (env source))).
    split.
    + split; [lia|]. rewrite <- Hc. apply update_list_clock.
    + rewrite update_list_other by done. unfold view.
      rewrite Hlog, Hst, Hrt, lookup_insert_eq.
      f_equal; [f_equal|].
      * destruct (main.AllRoutes (env source)) as [routes [err|]];
          [done|by rewrite lookup_insert_eq].
      * unfold trace_of. rewrite filter_app, fmap_app.
        rewrite !filter_cons, filter_nil. simpl.
        by destruct (decide (source = source)).
  - apply elem_of_cons in Hin as [->|Hin]; [done|].
    pose proof (update_source_other source source' p Hne) as Hview.
    unfold view in Hview. injection Hview as Hr Hst Htr.
    destruct (IH (main.update_source env source' p) Hnd Hin) as (t & Ht & Hv).
    { unfold main.status_of. by rewrite Hst. }
    exists t. split.
    + split; [|lia]. etrans; [apply (update_source_clock source')|lia].
    + rewrite Hv, Hr, Htr. done.
Qed.
End UpdateSource.

(** *** Stats *)

Lemma Stats_loop self (l : list (main.Source * api.RoutesResponse.t))
    (ti tf : Z) (rs : list main.RouteServerStats.t) :
  foldl
    (fun '(totalImported, totalFiltered, rsStats) '(source, routes) =>
       (totalImported + main.len (api.RoutesResponse.Imported routes),
        totalFiltered + main.len (api.RoutesResponse.Filtered routes),
        go_append rsStats (main.serverStats self source routes)))
    (ti, tf, rs) l
  = (ti + foldr (fun x n => main.len (api.RoutesResponse.Imported x.2) + n) 0 l,
     tf + foldr (fun x n => main.len (api.RoutesResponse.Filtered x.2) + n) 0 l,
     rs ++ ((fun x => main.serverStats self x.1 x.2) <$> l)).
Proof.
  revert ti tf rs. induction l as [|[source routes] l IH]; intros ti tf rs.
  - simpl. by rewrite !Z.add_0_r, app_nil_r.
  - csimpl. rewrite IH. unfold go_append. rewrite <- app_assoc.
    by rewrite !Z.add_assoc.
Qed.

Lemma Stats_RouteServers rho self :
  main.RouteServers (main.Stats rho self)
  = (fun x => main.serverStats self x.1 x.2) <$> rho (main.routesMap self).
Proof. unfold main.Stats. by rewrite Stats_loop. Qed.

Lemma Stats_TotalRoutes rho self :
  main.TotalRoutes (main.Stats rho self)
  = {| main.Filtered :=
         foldr (fun x n => main.len (api.RoutesResponse.Filtered x.2) + n) 0
           (rho (main.routesMap self));
       main.Imported :=
         foldr (fun x n => main.len (api.RoutesResponse.Imported x.2) + n) 0
           (rho (main.routesMap self)) |}.
Proof. unfold main.Stats. by rewrite Stats_loop. Qed.

(** C3.  When the [AllRoutes()] call of a backend fails during a refresh,
    the refresh of that backend leaves [routesMap] and [configMap] as they
    were and writes in [statusMap] the entry of that backend only: state
    ERROR, the error, and the time after the call.  After the whole cycle
    the cache of the backend is what it was, its status is ERROR with that
    error and a time within the cycle, and [Stats] reports for it the
    route counts of the cache with the state ERROR. *)
Theorem update_failure_keeps_cache
    (rho rho' : range_order main.Source api.RoutesResponse.t)
    (env : main.Backends) (p : main.Process) (source : main.Source)
    (cached refused : api.RoutesResponse.t) (err : error) :
  range_valid rho -> range_valid rho' ->
  main.routesMap (main.store p) !! source = Some cached ->
  main.State (main.status_of (main.store p) source) <> main.STATE_UPDATING ->
  main.AllRoutes (env source) = (refused, Some err) ->
  (main.routesMap (main.store (main.update_source env source p))
   = main.routesMap (main.store p)
   /\ main.configMap (main.store (main.update_source env source p))
      = main.configMap (main.store p)
   /\ main.statusMap (main.store (main.update_source env source p))
      = <[source :=
            {| main.LastRefresh :=
                 main.clock p + Z.max 0 (main.latency (env source));
               main.LastError := Some err;
               main.State := main.STATE_ERROR |}]>
          (main.statusMap (main.store p)))
  /\ main.routesMap (main.store (main.update rho env p)) !! source
     = Some cached
  /\ exists t,
       main.clock p <= t <= main.clock (main.update rho env p)
       /\ main.statusMap (main.store (main.update rho env p)) !! source
          = Some {| main.LastRefresh := t;
                    main.LastError := Some err;
                    main.State := main.STATE_ERROR |}
       /\ {| main.RouteServerStats.Name :=
               main.Name (default main.zero_SourceConfig
                            (main.configMap (main.store p) !! source));
             main.RouteServerStats.Routes :=
               {| main.Filtered :=
                    main.len (api.RoutesResponse.Filtered cached);
                  main.Imported :=
                    main.len (api.RoutesResponse.Imported cached) |};
             main.RouteServerStats.State := "ERROR";
             main.RouteServerStats.UpdatedAt := t |}
          ∈ main.RouteServers
              (main.Stats rho' (main.store (main.update rho env p))).
Proof.
  intros Hv Hv' Hc Hs Hf. split; [|split].
  - destruct (update_source_refresh env source p Hs) as (_ & _ & Hst & Hrt).
    rewrite Hf in Hst, Hrt. unfold refresh_result in Hst. rewrite Hf in Hst.
    split; [exact Hrt|]. split; [apply update_source_configMap|exact Hst].
  - change (main.update rho env p)
      with (update_list env (rho (main.routesMap (main.store p))) p).
    destruct (update_list_self env source
                (rho (main.routesMap (main.store p))) p
                (range_valid_NoDup rho _ Hv)) as (t & _ & Hview); [|done|].
    { apply list_elem_of_fmap. exists (source, cached).
      split; [done|by apply range_valid_elem]. }
    unfold view in Hview. injection Hview as Hr _ _.
    by rewrite Hr, Hf.
  - change (main.update rho env p)
      with (update_list env (rho (main.routesMap (main.store p))) p).
    set (p' := update_list env (rho (main.routesMap (main.store p))) p).
    destruct (update_list_self env source
                (rho (main.routesMap (main.store p))) p
                (range_valid_NoDup rho _ Hv)) as (t & Ht & Hview); [|done|].
    { apply list_elem_of_fmap. exists (source, cached).
      split; [done|by apply range_valid_elem]. }
    fold p' in Ht, Hview.
    unfold view in Hview. injection Hview as Hr Hst _.
    unfold refresh_result in Hst. rewrite Hf in Hr, Hst. simpl in Hst.
    exists t. split; [exact Ht|]. split; [exact Hst|].
    rewrite Stats_RouteServers. apply list_elem_of_fmap.
    exists (source, cached). split.
    + unfold main.serverStats, main.status_of. simpl.
      rewrite Hst. unfold p'. rewrite update_list_configMap. done.
    + apply range_valid_elem; [done|]. by rewrite Hr.
Qed.

(** After a good refresh the first backend times out: its three routes
    are still there, with the state ERROR. *)
Lemma update_failure_keeps_cache_witness :
  main.routesMap (main.store (main.update reverse_order first_fails both_cached))
    !! 1%nat = Some rs1_routes
  /\ exists t,
       {| main.RouteServerStats.Name := "rs1";
          main.RouteServerStats.Routes :=
            {| main.Filtered := 1; main.Imported := 2 |};
          main.RouteServerStats.State := "ERROR";
          main.RouteServerStats.UpdatedAt := t |}
       ∈ main.RouteServers
           (main.Stats map_to_list
              (main.store (main.update reverse_order first_fails both_cached))).
Proof.
  destruct (update_failure_keeps_cache reverse_order map_to_list first_fails
              both_cached 1%nat rs1_routes main.zero_RoutesResponse
              (ErrOther "i/o timeout"))
    as (_ & Hr & t & _ & _ & Hstats).
  - apply reverse_order_valid.
  - apply map_to_list_valid.
  - vm_compute. reflexivity.
  - vm_compute. discriminate.
  - reflexivity.
  - split; [exact Hr|]. exists t. exact Hstats.
Defined.

(** *** The state machine of a backend *)

Lemma NewRoutesStore_loop (source : main.Source)
    (sources : list main.SourceConfig)
    (routesMap : gmap main.Source api.RoutesResponse.t)
    (statusMap : gmap main.Source main.StoreStatus)
    (configMap : gmap main.Source main.SourceConfig) :
  source ∈ main.getInstance <$> sources ->
  let '(routesMap', statusMap', _) :=
    foldl
      (fun '(routesMap, statusMap, configMap) source =>
         let instance := main.getInstance source in
         let configMap := <[instance := source]> configMap in
         let routesMap := <[instance := main.zero_RoutesResponse]> routesMap in
         let statusMap :=
           <[instance := {| main.LastRefresh := zero_time;
                            main.LastError := None;
                            main.State := main.STATE_INIT |}]> statusMap in
         (routesMap, statusMap, configMap))
      (routesMap, statusMap, configMap) sources in
  routesMap' !! source = Some main.zero_RoutesResponse
  /\ statusMap' !! source
     = Some {| main.LastRefresh := zero_time;
               main.LastError := None;
               main.State := main.STATE_INIT |}.
Proof.
  revert routesMap statusMap configMap.
  induction sources as [|c sources IH]; intros rm sm cm Hin; csimpl in *;
    [by apply elem_of_nil in Hin|].
  destruct (decide (source ∈ main.getInstance <$> sources)) as [Hrest|Hrest];
    [by apply IH|].
  apply elem_of_cons in Hin as [->|Hin]; [|done].
  clear IH. revert rm sm cm.
  induction sources as [|c' sources IH]; intros rm sm cm; csimpl in *.
  - by rewrite !lookup_insert_eq.
  - apply not_elem_of_cons in Hrest as [Hne Hrest].
    specialize (IH Hrest (<[main.getInstance c' := main.zero_RoutesResponse]> rm)
                  (<[main.getInstance c' :=
                       {| main.LastRefresh := zero_time;
                          main.LastError := None;
                          main.State := main.STATE_INIT |}]> sm)
                  (<[main.getInstance c' := c']> cm)).
    rewrite (insert_insert_ne rm), (insert_insert_ne sm),
      (insert_insert_ne cm) by done.
    exact IH.
Qed.

Lemma boot_view (config : main.Config) (t0 : time_Time) (source : main.Source) :
  source ∈ main.getInstance <$> main.Sources config ->
  view source (main.boot config t0)
  = (Some main.zero_RoutesResponse,
     Some {| main.LastRefresh := zero_time;
             main.LastError := None;
             main.State := main.STATE_INIT |},
     []).
Proof.
  intros Hin. unfold view, main.boot, main.NewRoutesStore. simpl.
  pose proof (NewRoutesStore_loop source (main.Sources config) ∅ ∅ ∅ Hin) as Hl.
  destruct (foldl _ _ (main.Sources config)) as [[rm sm] cm].
  simpl. destruct Hl as [-> ->]. done.
Qed.

Lemma refresh_result_cases env source :
  refresh_result env source = main.STATE_READY
  \/ refresh_result env source = main.STATE_ERROR.
Proof.
  unfold refresh_result. destruct (main.AllRoutes (env source)).2; auto.
Qed.

(** The states recorded over a sequence of cycles. *)
Lemma run_trace cycles (p : main.Process) (source : main.Source) :
  Forall (fun c => range_valid c.1) cycles ->
  is_Some (main.routesMap (main.store p) !! source) ->
  main.State (main.status_of (main.store p) source) <> main.STATE_UPDATING ->
  trace_of source (main.status_log (run cycles p))
  = trace_of source (main.status_log p)
    ++ (c ← cycles; [main.STATE_UPDATING; refresh_result c.2 source]).
Proof.
  revert p. induction cycles as [|[rho env] cycles IH]; intros p Hv Hk Hs.
  - simpl. by rewrite app_nil_r.
  - apply Forall_cons in Hv as [Hrho Hv]. simpl in Hrho.
    change (run ((rho, env) :: cycles) p)
      with (run cycles
              (update_list env (rho (main.routesMap (main.store p))) p)).
    destruct Hk as [cached Hk].
    destruct (update_list_self env source
                (rho (main.routesMap (main.store p))) p
                (range_valid_NoDup rho _ Hrho)) as (t & _ & Hview); [|done|].
    { apply list_elem_of_fmap. exists (source, cached).
      split; [done|by apply range_valid_elem]. }
    unfold view in Hview. injection Hview as Hr Hst Htr.
    rewrite IH; [|done| |].
    + rewrite Htr. csimpl. by rewrite <- app_assoc.
    + apply update_list_keeps_key. by eexists.
    + unfold main.status_of. rewrite Hst. simpl.
      by destruct (refresh_result_cases env source) as [-> | ->].
Qed.

Lemma cycles_follow_transitions
    (cycles : list (range_order main.Source api.RoutesResponse.t
                    * main.Backends))
    (source : main.Source) (s : Z) :
  transition s main.STATE_UPDATING ->
  follows_transitions
    (s :: (c ← cycles; [main.STATE_UPDATING; refresh_result c.2 source])).
Proof.
  unfold follows_transitions. revert s.
  induction cycles as [|[rho env] cycles IH]; intros s Hs; csimpl.
  - repeat constructor.
  - assert (transition main.STATE_UPDATING (refresh_result env source)
            /\ transition (refresh_result env source) main.STATE_UPDATING)
      as [Hu Hx].
    { destruct (refresh_result_cases env source) as [-> | ->];
        split; constructor. }
    constructor; [|by constructor].
    constructor; [|by constructor].
    by apply IH.
Qed.

(** C4.  A refresh attempt on a backend whose state is UPDATING changes
    nothing.  Any other attempt records UPDATING and then READY when the
    fetch succeeded, ERROR when it failed.  [NewRoutesStore] enters every
    configured backend with the state INIT, and from then on, over any
    number of refresh cycles, the states of the backend are the one the
    new store holds followed, cycle after cycle, by UPDATING and the
    result of the fetch: every state is followed by one the machine has a
    transition to, and by no other. *)
Theorem refresh_state_machine (config : main.Config) (t0 : time_Time)
    (cycles : list (range_order main.Source api.RoutesResponse.t
                    * main.Backends))
    (env : main.Backends) (p : main.Process) (source : main.Source) :
  (main.State (main.status_of (main.store p) source) = main.STATE_UPDATING ->
   main.update_source env source p = p)
  /\ (main.State (main.status_of (main.store p) source) <> main.STATE_UPDATING ->
      main.status_log (main.update_source env source p)
      = main.status_log p
        ++ [(source, main.STATE_UPDATING);
            (source, match (main.AllRoutes (env source)).2 with
                     | Some _ => main.STATE_ERROR
                     | None => main.STATE_READY
                     end)])
  /\ (source ∈ main.getInstance <$> main.Sources config ->
      Forall (fun c => range_valid c.1) cycles ->
      main.State <$> main.statusMap (main.NewRoutesStore config) !! source
      = Some main.STATE_INIT
      /\ lifecycle config t0 cycles source
         = main.STATE_INIT
           :: (c ← cycles; [main.STATE_UPDATING; refresh_result c.2 source])
      /\ follows_transitions (lifecycle config t0 cycles source)).
Proof.
  split; [apply update_source_updating|]. split.
  - intros Hs.
    destruct (update_source_refresh env source p Hs) as (_ & -> & _).
    unfold refresh_result. by destruct (main.AllRoutes (env source)).2.
  - intros Hin Hv.
    pose proof (boot_view config t0 source Hin) as Hb.
    pose proof (f_equal (fun v => v.1.1) Hb) as Hr.
    pose proof (f_equal (fun v => v.1.2) Hb) as Hst.
    unfold view in Hr, Hst. simpl in Hr, Hst.
    assert (lifecycle config t0 cycles source
            = main.STATE_INIT
              :: (c ← cycles; [main.STATE_UPDATING; refresh_result c.2 source]))
      as ->.
    { unfold lifecycle, main.status_of. simpl. rewrite Hst. simpl. f_equal.
      rewrite run_trace; [done|done|by eexists|].
      unfold main.status_of. simpl. by rewrite Hst. }
    split; [by rewrite Hst|].
    split; [done|]. apply cycles_follow_transitions. constructor.
Qed.

(** The first backend over a good cycle and a cycle in which it fails. *)
Lemma refresh_state_machine_witness :
  lifecycle two_sources t_2020 two_cycles 1%nat
  = [main.STATE_INIT; main.STATE_UPDATING; main.STATE_READY;
     main.STATE_UPDATING; main.STATE_ERROR]
  /\ follows_transitions (lifecycle two_sources t_2020 two_cycles 1%nat).
Proof.
  destruct (proj2 (proj2 (refresh_state_machine two_sources t_2020 two_cycles
                            both_answer (main.boot two_sources t_2020) 1%nat)))
    as (_ & Hstates & Hfollows).
  - vm_compute. left.
  - repeat constructor; [apply map_to_list_valid|apply reverse_order_valid].
  - split; [exact Hstates|exact Hfollows].
Defined.

(* ===================================================================== *)
(** ** Lookup                                                             *)
(* ===================================================================== *)

(** C1, as the specification states it, fails: after both backends have cached a
    snapshot, one of them with a route to 10.0.0.0/24, the lookup the
    specification describes has one entry, attributed to that backend,
    and [Lookup] has none. *)
Lemma Lookup_misses_cached_route :
  main.State <$> main.statusMap (main.store both_cached)
  = {[ 1%nat := main.STATE_READY; 2%nat := main.STATE_READY ]}
  /\ Lookup_spec map_to_list (main.store both_cached) "10.0.0.0/24"
     = [ {| api.LookupRoute.Routeserver := "rs1";
            api.LookupRoute.Route_ := example_route "10.0.0.0/24" |} ]
  /\ main.Lookup (main.store both_cached) "10.0.0.0/24"
     <> Lookup_spec map_to_list (main.store both_cached) "10.0.0.0/24"
  /\ length (main.Lookup (main.store both_cached) "10.0.0.0/24") <> 1%nat.
Proof.
  assert (Lookup_spec map_to_list (main.store both_cached) "10.0.0.0/24"
          = [ {| api.LookupRoute.Routeserver := "rs1";
                 api.LookupRoute.Route_ := example_route "10.0.0.0/24" |} ])
    as Hspec by (vm_compute; reflexivity).
  split; [vm_compute; reflexivity|]. split; [exact Hspec|].
  rewrite Hspec. split; discriminate.
Qed.

(** C1, amended.  For every store and every prefix, [Lookup] returns no
    entry, whatever the backends have cached; it leaves the store as it
    is, and a lookup request that passes validation is answered with an
    empty list of routes. *)
Theorem Lookup_returns_nothing (self : main.RoutesStore) (prefix : string) :
  main.Lookup self prefix = []
  /\ (forall elapsed p,
        (main.call_Lookup elapsed prefix p).1 = []
        /\ main.store (main.call_Lookup elapsed prefix p).2 = main.store p)
  /\ (forall elapsed req p response p',
        main.apiLookupPrefixGlobal elapsed req p = (Some response, None, p') ->
        main.Routes response = [] /\ main.store p' = main.store p).
Proof.
  split; [done|]. split; [done|].
  intros elapsed req p response p'. unfold main.apiLookupPrefixGlobal.
  destruct (main.validateQueryString req "q") as [q [e|]]; [done|].
  destruct (main.validatePrefixQuery q) as [q' [e|]]; [done|].
  simpl. intros [= <- <-]. done.
Qed.

(** The lookup of a cached network, directly and through the endpoint. *)
Lemma Lookup_returns_nothing_witness :
  main.Lookup (main.store both_cached) "10.0.0.0/24" = []
  /\ exists response p',
       main.apiLookupPrefixGlobal 1000000 (request (Some ["10.0.0.0/24"]))
         both_cached = (Some response, None, p')
       /\ main.Routes response = [].
Proof.
  split.
  - exact (proj1 (Lookup_returns_nothing (main.store both_cached)
                    "10.0.0.0/24")).
  - assert (exists response p',
              main.apiLookupPrefixGlobal 1000000
                (request (Some ["10.0.0.0/24"])) both_cached
              = (Some response, None, p')) as (response & p' & Hr)
      by (vm_compute; do 2 eexists; reflexivity).
    exists response, p'. split; [exact Hr|].
    exact (proj1 (proj2 (proj2 (Lookup_returns_nothing
                                  (main.store both_cached) "10.0.0.0/24"))
                    1000000 (request (Some ["10.0.0.0/24"])) both_cached
                    response p' Hr)).
Defined.

(* ===================================================================== *)
(** ** The lookup endpoint                                                *)
(* ===================================================================== *)

Example lookup_time_in_milliseconds :
  (fun r => main.Time_ <$> r.1.1)
    (main.apiLookupPrefixGlobal 2500000 (request (Some ["10.0.0.0/24"]))
       both_cached)
  = Some 2.5%float.
Proof. vm_compute. reflexivity. Qed.

(** C10.  A lookup request whose [q] parameter is missing, given more than
    once (or with no value at all), empty, or shorter than two bytes is
    answered with an error and the process is left as it was: [Lookup] has
    not been called.  For a single [q] of length at least two, both
    validations return the value as it is, and [Lookup] is called once,
    with that value. *)
Theorem lookup_query_validated (elapsed : time_Duration) (req : main.Request)
    (p : main.Process) :
  let values := main.URL_Query req !! "q" in
  ((values = None
    \/ (exists vs, values = Some vs /\ length vs <> 1%nat)
    \/ values = Some [""]
    \/ (exists v, values = Some [v] /\ (String.length v < 2)%nat)) ->
   exists err, main.apiLookupPrefixGlobal elapsed req p = (None, Some err, p))
  /\ (forall v,
        values = Some [v] -> (2 <= String.length v)%nat ->
        main.validateQueryString req "q" = (v, None)
        /\ main.validatePrefixQuery v = (v, None)
        /\ exists response p',
             main.apiLookupPrefixGlobal elapsed req p
             = (Some response, None, p')
             /\ main.Routes response = main.Lookup (main.store p) v
             /\ main.lookup_log p' = main.lookup_log p ++ [v]).
Proof.
  intros values. subst values. split.
  - unfold main.apiLookupPrefixGlobal, main.validateQueryString, main.len.
    intros [Hq|[(vs & Hq & Hlen)|[Hq|(v & Hq & Hlen)]]]; rewrite Hq.
    + by eexists.
    + destruct (Z.eqb_spec (Z.of_nat (length vs)) 1) as [Heq|_]; [lia|].
      by eexists.
    + by eexists.
    + simpl. destruct (String.eqb_spec v "") as [->|_]; [by eexists|].
      unfold main.validatePrefixQuery.
      destruct (Z.ltb_spec (Z.of_nat (String.length v)) 2) as [_|]; [|lia].
      by eexists.
  - intros v Hq Hlen.
    assert (main.validateQueryString req "q" = (v, None)) as Hv.
    { unfold main.validateQueryString. rewrite Hq. simpl.
      destruct (String.eqb_spec v "") as [->|_]; [simpl in Hlen; lia|done]. }
    assert (main.validatePrefixQuery v = (v, None)) as Hpq.
    { unfold main.validatePrefixQuery.
      destruct (Z.ltb_spec (Z.of_nat (String.length v)) 2); [lia|done]. }
    split; [exact Hv|]. split; [exact Hpq|].
    unfold main.apiLookupPrefixGlobal. rewrite Hv, Hpq. simpl.
    by do 2 eexists.
Qed.

(** A query of one byte, a query given twice, and a well-formed query. *)
Lemma lookup_query_validated_witness :
  (exists err,
     main.apiLookupPrefixGlobal 1000000 (request (Some ["1"])) both_cached
     = (None, Some err, both_cached))
  /\ (exists err,
        main.apiLookupPrefixGlobal 1000000
          (request (Some ["10.0.0.0/24"; "10.1.0.0/16"])) both_cached
        = (None, Some err, both_cached))
  /\ main.validateQueryString (request (Some ["10.0.0.0/24"])) "q"
     = ("10.0.0.0/24", None).
Proof.
  split; [|split].
  - apply (proj1 (lookup_query_validated 1000000 (request (Some ["1"]))
                    both_cached)).
    right. right. right. exists "1". split; [reflexivity|]. simpl. lia.
  - apply (proj1 (lookup_query_validated 1000000
                    (request (Some ["10.0.0.0/24"; "10.1.0.0/16"]))
                    both_cached)).
    right. left. exists ["10.0.0.0/24"; "10.1.0.0/16"].
    split; [reflexivity|]. simpl. lia.
  - apply (proj2 (lookup_query_validated 1000000
                    (request (Some ["10.0.0.0/24"])) both_cached)
             "10.0.0.0/24"); [reflexivity|simpl; lia].
Defined.

(* ===================================================================== *)
(** ** More on the parsers                                                *)
(* ===================================================================== *)

Lemma Forall_returns_collect {A B : Type} (f : A -> outcome B) (l : list A) :
  Forall (fun x => returns (f x)) l ->
  exists ys, Forall2 (fun x y => f x = Ret y) l ys.
Proof.
  induction 1 as [|x l [y Hy] _ [ys IH]]; [by exists []|].
  exists (y :: ys). by constructor.
Qed.

Section NeighboursMore.
Context `{TimeLib}.
Implicit Types (now : time_Time) (config : birdwatcher.Config).

Local Ltac case_value v :=
  destruct v eqn:?; simpl in *; try discriminate; try (by eexists).

Lemma parseNeighbour_decoded now config id proto n :
  birdwatcher.parseNeighbour now config id proto = Ret n ->
  proto = VObject (api.Neighbour.Details n)
  /\ neighbour_decoded now config n.
Proof.
  unfold birdwatcher.parseNeighbour, birdwatcher.int_float64, neighbour_decoded.
  intros Hr. destruct proto as [| | | | |m]; try discriminate. simpl in Hr.
  destruct (index m "routes") as [| | | | |m0] eqn:Hroutes;
    try discriminate; simpl in Hr.
  destruct (index m "neighbor_address") eqn:Haddr; try discriminate;
    simpl in Hr.
  destruct (index m "neighbor_as") eqn:Has; try discriminate; simpl in Hr.
  destruct (index m "state") eqn:Hstate; try discriminate; simpl in Hr.
  destruct (index m "description") eqn:Hdesc; try discriminate; simpl in Hr.
  destruct (index m0 "imported") eqn:Himp; try discriminate; simpl in Hr.
  destruct (index m0 "exported") eqn:Hexp; try discriminate; simpl in Hr.
  destruct (index m0 "filtered") eqn:Hfil; try discriminate; simpl in Hr.
  destruct (index m0 "preferred") eqn:Hpre; try discriminate; simpl in Hr.
  injection Hr as <-. simpl.
  rewrite Haddr, Has, Hstate, Hdesc, Hroutes.
  repeat (split; [done|]). exists m0.
  by rewrite Himp, Hexp, Hfil, Hpre.
Qed.
End NeighboursMore.

Section NeighboursShape.
Context `{TimeLib}.
Implicit Types (now : time_Time) (config : birdwatcher.Config).

(** Every neighbour of the result was parsed from the entry under its
    identifier, at one of the clock reads. *)
Lemma parseNeighbours_elem rho (clock : nat -> time_Time) bird config
    protocols ns e n :
  range_valid rho ->
  index bird "protocols" = VObject protocols ->
  birdwatcher.parseNeighbours rho clock bird config = Ret (ns, e) ->
  n ∈ ns ->
  length ns = size protocols
  /\ exists k proto,
       (k < size protocols)%nat
       /\ protocols !! api.Neighbour.Id n = Some proto
       /\ birdwatcher.parseNeighbour (clock k) config (api.Neighbour.Id n) proto
          = Ret n.
Proof.
  intros Hv Hb Hr Hn.
  destruct (parseNeighbours_entries rho clock bird config protocols ns e
              Hv Hb Hr) as (_ & ys & -> & HF).
  split.
  { rewrite sort_Sort_Permutation, <- (Forall2_length _ _ _ HF), (Hv protocols).
    apply length_map_to_list. }
  rewrite sort_Sort_Permutation in Hn.
  apply list_elem_of_lookup_1 in Hn as [i Hi].
  destruct (Forall2_lookup_r _ _ _ _ _ HF Hi) as ([id proto] & Hx & k & Hk & Hy).
  simpl in Hy. exists k, proto.
  destruct (parseNeighbour_ret _ _ _ _ _ Hy) as (-> & _).
  split; [done|]. split; [|done].
  apply elem_of_map_to_list. rewrite <- (Hv protocols).
  by eapply list_elem_of_lookup_2.
Qed.
End NeighboursShape.

(** X1.  [parseNeighbours] returns exactly when [protocols] is an object
    all of whose entries are well formed, whatever the order in which the
    entries are visited and whatever the clock reads. *)
Theorem parseNeighbours_returns_iff `{TimeLib}
    (rho : range_order string value) (clock : nat -> time_Time)
    (bird : gmap string value) (config : birdwatcher.Config) :
  range_valid rho ->
  returns (birdwatcher.parseNeighbours rho clock bird config)
  <-> exists protocols,
        index bird "protocols" = VObject protocols
        /\ map_Forall (fun _ proto => protocol_ok proto = true) protocols.
Proof.
  intros Hv. split.
  - intros [[ns e] Hr].
    destruct (index bird "protocols") as [| | | | |protocols] eqn:Hb;
      try (unfold birdwatcher.parseNeighbours in Hr; rewrite Hb in Hr;
           discriminate).
    exists protocols. split; [done|].
    destruct (parseNeighbours_entries rho clock bird config protocols ns e
                Hv Hb Hr) as (_ & ys & _ & HF).
    intros id proto Hid.
    destruct (protocol_ok proto) eqn:Hok; [done|].
    pose proof (range_valid_elem rho protocols id proto Hv Hid) as Hin.
    apply list_elem_of_lookup_1 in Hin as [i Hi].
    destruct (Forall2_lookup_l _ _ _ _ _ HF Hi) as (y & _ & k & _ & Hy).
    simpl in Hy.
    destruct (parseNeighbour_protocol_bad (clock k) config id proto Hok)
      as [e' He'].
    congruence.
  - intros (protocols & Hb & Hall).
    destruct (Forall_returns_collect
                (fun v : nat * (string * value) =>
                   birdwatcher.parseNeighbour (clock v.1) config v.2.1 v.2.2)
                (visits (rho protocols))) as [ys HF].
    { apply Forall_forall. intros [k [id proto]] Hin. simpl.
      apply parseNeighbour_protocol_ok. apply (Hall id).
      apply elem_of_map_to_list. rewrite <- (Hv protocols).
      apply list_elem_of_lookup_1 in Hin as [i Hi].
      rewrite visits_lookup in Hi.
      destruct (rho protocols !! i) as [x|] eqn:Hx; [|done].
      injection Hi as _ ->. by eapply list_elem_of_lookup_2. }
    apply (visits_collected
             (fun k (x : string * value) =>
                birdwatcher.parseNeighbour (clock k) config x.1 x.2))
      in HF as [Hlen HF].
    rewrite (parseNeighbours_collected rho clock bird config protocols ys
               Hb Hlen HF).
    by eexists.
Qed.

(** The payload of two sessions parses, in the reverse order of visit. *)
Lemma parseNeighbours_returns_iff_witness :
  returns (birdwatcher.parseNeighbours reverse_order (ticking t_2020)
             neighbours_payload utc_config).
Proof.
  apply (proj2 (parseNeighbours_returns_iff reverse_order (ticking t_2020)
                  neighbours_payload utc_config reverse_order_valid)).
  eexists. split; [vm_compute; reflexivity|].
  apply map_Forall_to_list. vm_compute. repeat constructor.
Defined.

(** X2.  When [parseNeighbours] returns, its error is nil and its list has
    exactly one neighbour per entry of the protocols map: as many
    neighbours as entries, and the identifiers of the neighbours are the
    keys of the map. *)
Theorem parseNeighbours_one_per_entry `{TimeLib}
    (rho : range_order string value) (clock : nat -> time_Time)
    (bird : gmap string value) (config : birdwatcher.Config)
    (protocols : gmap string value) (ns : list api.Neighbour.t)
    (e : option error) :
  range_valid rho ->
  index bird "protocols" = VObject protocols ->
  birdwatcher.parseNeighbours rho clock bird config = Ret (ns, e) ->
  e = None
  /\ length ns = size protocols
  /\ NoDup (api.Neighbour.Id <$> ns)
  /\ (forall id,
        is_Some (protocols !! id) <-> id ∈ api.Neighbour.Id <$> ns).
Proof.
  intros Hv Hb Hr.
  destruct (parseNeighbours_entries rho clock bird config protocols ns e
              Hv Hb Hr) as (He & ys & Hns & HF).
  pose proof (sort_Sort_Permutation api.Neighbours_Less ys) as Hp.
  rewrite <- Hns in Hp.
  pose proof (parseNeighbours_loop_ids _ clock config _ _ HF) as Hids.
  assert (api.Neighbour.Id <$> ns ≡ₚ (map_to_list protocols).*1) as Hkeys.
  { rewrite Hp, Hids. by rewrite (Hv protocols). }
  split; [done|]. split; [|split].
  - rewrite <- (length_fmap api.Neighbour.Id), Hkeys, length_fmap.
    apply length_map_to_list.
  - rewrite Hkeys. apply NoDup_fst_map_to_list.
  - intros id. rewrite Hkeys. rewrite list_elem_of_fmap. split.
    + intros [proto Hid]. exists (id, proto).
      split; [done|by apply elem_of_map_to_list].
    + intros ([id' proto] & -> & Hin). apply elem_of_map_to_list in Hin.
      by eexists.
Qed.

Lemma parseNeighbours_one_per_entry_witness :
  exists ns,
    birdwatcher.parseNeighbours reverse_order (ticking t_2020)
      neighbours_payload utc_config = Ret (ns, None)
    /\ length ns = 2%nat.
Proof.
  assert (exists ns,
            birdwatcher.parseNeighbours reverse_order (ticking t_2020)
              neighbours_payload utc_config = Ret (ns, None)) as [ns Hns]
    by (vm_compute; eexists; reflexivity).
  exists ns. split; [exact Hns|].
  destruct (parseNeighbours_one_per_entry reverse_order (ticking t_2020)
              neighbours_payload utc_config
              {[ "R2" := protocol_entry (Some "10.0.0.2") 65002
                           (VString "2020-01-01 00:00:00") None;
                 "R1" := protocol_entry (Some "10.0.0.1") 65001
                           (VString "2020-01-01 00:00:00") (Some "") ]}
              ns None reverse_order_valid) as (_ & Hlen & _).
  - vm_compute. reflexivity.
  - exact Hns.
  - rewrite Hlen. vm_compute. reflexivity.
Defined.

(** X3.  Every neighbour [parseNeighbours] returns keeps the raw entry it
    was parsed from as its details, under its identifier in the protocols
    map, and each of its typed fields is the decoding of the raw field:
    the numbers truncated to integers, the [imported] counter as
    RoutesReceived, a missing or non-string [last_error] as the empty
    string, and the uptime as the time since [state_changed] at one of
    the clock reads of the parse, of which there are as many as
    entries. *)
Theorem parseNeighbours_details `{TimeLib}
    (rho : range_order string value) (clock : nat -> time_Time)
    (bird : gmap string value) (config : birdwatcher.Config)
    (protocols : gmap string value) (ns : list api.Neighbour.t)
    (e : option error) (n : api.Neighbour.t) :
  range_valid rho ->
  index bird "protocols" = VObject protocols ->
  birdwatcher.parseNeighbours rho clock bird config = Ret (ns, e) ->
  n ∈ ns ->
  protocols !! api.Neighbour.Id n = Some (VObject (api.Neighbour.Details n))
  /\ exists k,
       (k < size protocols)%nat /\ neighbour_decoded (clock k) config n.
Proof.
  intros Hv Hb Hr Hn.
  destruct (parseNeighbours_elem rho clock bird config protocols ns e n
              Hv Hb Hr Hn) as (_ & k & proto & Hk & Hid & Hy).
  destruct (parseNeighbour_decoded _ _ _ _ _ Hy) as [-> Hdec].
  split; [done|]. by exists k.
Qed.

Lemma parseNeighbours_details_witness :
  exists ns n k,
    birdwatcher.parseNeighbours reverse_order (ticking t_2020_1h)
      neighbours_payload utc_config = Ret (ns, None)
    /\ ns !! 1%nat = Some n
    /\ api.Neighbour.Id n = "R2"
    /\ api.Neighbour.LastError n = ""
    /\ (k < 2)%nat
    /\ neighbour_decoded (ticking t_2020_1h k) utc_config n.
Proof.
  assert (exists ns n,
            birdwatcher.parseNeighbours reverse_order (ticking t_2020_1h)
              neighbours_payload utc_config = Ret (ns, None)
            /\ ns !! 1%nat = Some n
            /\ api.Neighbour.Id n = "R2"
            /\ api.Neighbour.LastError n = "") as (ns & n & Hns & Hn & Hid & Hle)
    by (vm_compute; do 2 eexists; repeat split).
  destruct (parseNeighbours_details reverse_order (ticking t_2020_1h)
              neighbours_payload utc_config
              {[ "R2" := protocol_entry (Some "10.0.0.2") 65002
                           (VString "2020-01-01 00:00:00") None;
                 "R1" := protocol_entry (Some "10.0.0.1") 65001
                           (VString "2020-01-01 00:00:00") (Some "") ]}
              ns None n reverse_order_valid) as (_ & k & Hk & Hdec).
  - vm_compute. reflexivity.
  - exact Hns.
  - by eapply list_elem_of_lookup_2.
  - exists ns, n, k. split; [exact Hns|]. split; [exact Hn|].
    split; [exact Hid|]. split; [exact Hle|]. split; [|exact Hdec].
    vm_compute in Hk. exact Hk.
Defined.

Section RoutesShape.
Context `{TimeLib}.
Implicit Types (now : time_Time) (config : birdwatcher.Config).

Lemma parseRoute_fields now config data r :
  birdwatcher.parseRoute now config data = Ret r ->
  data = VObject (api.Route.Details r)
  /\ api.Route.Id r = api.Route.Network r
  /\ index (api.Route.Details r) "network" = VString (api.Route.Network r)
  /\ birdwatcher.parseRouteBgpInfo (index (api.Route.Details r) "bgp")
     = Ret (api.Route.Bgp r).
Proof.
  unfold birdwatcher.parseRoute, birdwatcher.int_float64.
  intros Hr. destruct data as [| | | | |m]; try discriminate. simpl in Hr.
  destruct (birdwatcher.mustStringList (index m "type"));
    simpl in Hr; [|done].
  destruct (birdwatcher.parseRouteBgpInfo (index m "bgp")) eqn:Hbgp;
    simpl in Hr; [|done].
  destruct (index m "network") eqn:Hnet; try discriminate; simpl in Hr.
  destruct (index m "from_protocol"); try discriminate; simpl in Hr.
  destruct (index m "interface"); try discriminate; simpl in Hr.
  destruct (index m "gateway"); try discriminate; simpl in Hr.
  destruct (index m "metric"); try discriminate; simpl in Hr.
  injection Hr as <-. simpl. by rewrite Hnet, Hbgp.
Qed.

(** What [parseRoutes] returns, element by element of the array. *)
Lemma parseRoutes_entries (clock : nat -> time_Time) bird config rs e :
  birdwatcher.parseRoutes clock bird config = Ret (rs, e) ->
  e = None
  /\ exists birdRoutes ys,
       index bird "routes" = VArray birdRoutes
       /\ rs ≡ₚ ys
       /\ Forall2
            (fun x y =>
               exists k, birdwatcher.parseRoute (clock k) config x = Ret y)
            birdRoutes ys.
Proof.
  intros Hr.
  destruct (parseRoutes_inv clock bird config rs e Hr)
    as (He & birdRoutes & ys & Hb & -> & Hlen & Hall).
  split; [done|]. exists birdRoutes, ys. split; [done|].
  split; [apply sort_Sort_Permutation|].
  apply Forall2_same_length_lookup_2; [done|].
  intros k x y Hx Hy. exists k. by apply Hall.
Qed.

(** The details of the routes are the elements of the array. *)
Lemma parseRoutes_details (clock : nat -> time_Time) bird config birdRoutes
    rs e :
  index bird "routes" = VArray birdRoutes ->
  birdwatcher.parseRoutes clock bird config = Ret (rs, e) ->
  (fun r => VObject (api.Route.Details r)) <$> rs ≡ₚ birdRoutes.
Proof.
  intros Hb Hr.
  destruct (parseRoutes_entries clock bird config rs e Hr)
    as (_ & birdRoutes' & ys & Hb' & Hp & HF).
  rewrite Hb in Hb'. injection Hb' as <-. rewrite Hp.
  clear Hb Hr Hp. induction HF as [|x y l ys' [k Hxy] _ IH]; csimpl; [done|].
  apply parseRoute_fields in Hxy as [-> _]. by rewrite IH.
Qed.
End RoutesShape.

(** X4.  When [parseRoutes] returns, its error is nil and its list has one
    route per element of the [routes] array, each keeping the raw element
    as its details; the identifier of every route is its network, and its
    [Bgp] block is what [parseRouteBgpInfo] makes of the raw [bgp] field. *)
Theorem parseRoutes_one_per_entry `{TimeLib} (clock : nat -> time_Time)
    (bird : gmap string value) (config : birdwatcher.Config)
    (rs : list api.Route.t) (e : option error) :
  birdwatcher.parseRoutes clock bird config = Ret (rs, e) ->
  e = None
  /\ exists birdRoutes,
       index bird "routes" = VArray birdRoutes
       /\ (fun r => VObject (api.Route.Details r)) <$> rs ≡ₚ birdRoutes
       /\ Forall (fun r =>
                    api.Route.Id r = api.Route.Network r
                    /\ index (api.Route.Details r) "network"
                       = VString (api.Route.Network r)
                    /\ birdwatcher.parseRouteBgpInfo
                         (index (api.Route.Details r) "bgp")
                       = Ret (api.Route.Bgp r)) rs.
Proof.
  intros Hr.
  destruct (parseRoutes_entries clock bird config rs e Hr)
    as (He & birdRoutes & ys & Hb & Hp & HF).
  split; [done|]. exists birdRoutes. split; [done|]. split.
  - exact (parseRoutes_details clock bird config birdRoutes rs e Hb Hr).
  - rewrite Hp. clear Hb Hr Hp.
    induction HF as [|x y l ys' [k Hxy] _ IH]; constructor; [|done].
    by apply parseRoute_fields in Hxy as [_ ?].
Qed.

Lemma parseRoutes_one_per_entry_witness :
  exists rs,
    birdwatcher.parseRoutes (ticking t_2020_1h) routes_payload utc_config
    = Ret (rs, None)
    /\ length rs = 3%nat
    /\ Forall (fun r => api.Route.Id r = api.Route.Network r) rs.
Proof.
  assert (exists rs,
            birdwatcher.parseRoutes (ticking t_2020_1h) routes_payload
              utc_config = Ret (rs, None)) as [rs Hrs]
    by (vm_compute; eexists; reflexivity).
  exists rs. split; [exact Hrs|].
  destruct (parseRoutes_one_per_entry (ticking t_2020_1h) routes_payload
              utc_config rs None Hrs) as (_ & birdRoutes & Hb & Hp & Hall).
  split.
  - rewrite <- (length_fmap (fun r => VObject (api.Route.Details r))), Hp.
    vm_compute in Hb. injection Hb as <-. reflexivity.
  - eapply Forall_impl; [exact Hall|]. by intros r (? & _).
Defined.

(** *** Parsing twice *)





(** With a ticking clock the uptimes depend on the order of visit: the
    session met first has the shorter one. *)
Example parseNeighbours_ticking :
  (fun o : outcome (list api.Neighbour.t * option error) =>
     match o with
     | Ret (ns, e) =>
         Some ((fun n : api.Neighbour.t =>
                  (api.Neighbour.Id n, api.Neighbour.Uptime n)) <$> ns)
     | Panic _ => None
     end)
    <$> [birdwatcher.parseNeighbours map_to_list (ticking t_2020_1h)
           neighbours_payload utc_config;
         birdwatcher.parseNeighbours reverse_order (ticking t_2020_1h)
           neighbours_payload utc_config;
         birdwatcher.parseNeighbours reverse_order (at_instant t_2020_1h)
           neighbours_payload utc_config]
  = [Some [("R1", 3600000000000); ("R2", 3600001000000)];
     Some [("R1", 3600001000000); ("R2", 3600000000000)];
     Some [("R1", 3600000000000); ("R2", 3600000000000)]].
Proof. vm_compute. reflexivity. Qed.

(** *** BGP attribute blocks and communities, exactly *)

Lemma mustStringList_not_slice (data : value) :
  is_slice data = false -> panics (birdwatcher.mustStringList data).
Proof. destruct data; try done; by eexists. Qed.

(** X5.  [parseBgpCommunities] fails exactly on a list one of whose
    elements is not a list of numbers; on every other value it returns,
    with one community per element of a list and, in it, one integer per
    number. *)
Theorem parseBgpCommunities_returns_iff (data : value) :
  (returns (birdwatcher.parseBgpCommunities data)
   <-> communities_shaped data = true)
  /\ (panics (birdwatcher.parseBgpCommunities data)
      <-> communities_shaped data = false)
  /\ (forall ldata cs,
        data = VArray ldata ->
        birdwatcher.parseBgpCommunities data = Ret cs ->
        length cs = length ldata
        /\ forall i c cdata,
             cs !! i = Some c -> ldata !! i = Some (VArray cdata) ->
             c = number_int <$> cdata).
Proof.
  assert (communities_shaped data = false ->
          panics (birdwatcher.parseBgpCommunities data)) as Hbad.
  { destruct data; try done. apply parseBgpCommunities_misshaped. }
  split; [|split].
  - split; [|apply parseBgpCommunities_returns].
    intros [cs Hr]. destruct (communities_shaped data) eqn:Hs; [done|].
    destruct (Hbad eq_refl) as [e He]. congruence.
  - split; [|exact Hbad].
    intros [e He]. destruct (communities_shaped data) eqn:Hs; [|done].
    destruct (parseBgpCommunities_returns data Hs) as [cs Hr]. congruence.
  - intros ldata cs -> Hr.
    destruct (communities_shaped (VArray ldata)) eqn:Hs.
    + rewrite (parseBgpCommunities_shaped ldata Hs) in Hr.
      injection Hr as <-. split; [apply length_fmap|].
      intros i c cdata Hc Hl. rewrite list_lookup_fmap, Hl in Hc.
      by injection Hc as <-.
    + destruct (Hbad eq_refl) as [e He]. congruence.
Qed.

Lemma parseBgpCommunities_returns_iff_witness :
  exists cs,
    birdwatcher.parseBgpCommunities
      (VArray [VArray [VNumber 65000; VNumber 1]; VArray []]) = Ret cs
    /\ length cs = 2%nat.
Proof.
  destruct (proj2 (proj1 (parseBgpCommunities_returns_iff
              (VArray [VArray [VNumber 65000; VNumber 1]; VArray []])))
              eq_refl) as [cs Hcs].
  exists cs. split; [exact Hcs|].
  exact (proj1 (proj2 (proj2 (parseBgpCommunities_returns_iff
           (VArray [VArray [VNumber 65000; VNumber 1]; VArray []])))
           _ cs eq_refl Hcs)).
Defined.

(** X6.  [parseRouteBgpInfo] returns exactly for the objects whose
    [as_path] is a list, whose [communities] and [large_communities] are
    shaped, and whose [local_pref] is a string; on every other value it
    panics.  Nothing else in the block matters: [origin], [next_hop] and
    [med] may be missing or of any type. *)
Theorem parseRouteBgpInfo_returns_iff (data : value) :
  (returns (birdwatcher.parseRouteBgpInfo data) <-> bgp_block_ok data = true)
  /\ (panics (birdwatcher.parseRouteBgpInfo data)
      <-> bgp_block_ok data = false).
Proof.
  assert (bgp_block_ok data = true ->
          returns (birdwatcher.parseRouteBgpInfo data)) as Hok.
  { destruct data as [| | | | |bgpData]; try done. simpl. intros Hb.
    repeat (apply andb_prop in Hb as [Hb ?]).
    unfold birdwatcher.parseRouteBgpInfo. simpl.
    destruct (index bgpData "as_path") as [| | | |path|]; try done.
    rewrite parseIntList_slice. simpl.
    destruct (parseBgpCommunities_returns (index bgpData "communities"))
      as [cs ->]; [done|].
    destruct (parseBgpCommunities_returns (index bgpData "large_communities"))
      as [lcs ->]; [done|]. simpl.
    destruct (index bgpData "local_pref"); try done. simpl.
    destruct (strconv_Atoi s). by eexists. }
  assert (bgp_block_ok data = false ->
          panics (birdwatcher.parseRouteBgpInfo data)) as Hbad.
  { destruct data as [| | | | |bgpData]; try (by eexists). simpl. intros Hb.
    unfold birdwatcher.parseRouteBgpInfo. simpl.
    destruct (index bgpData "as_path") as [| | | |path|] eqn:Hp;
      try (by eexists).
    rewrite parseIntList_slice. simpl. simpl in Hb.
    destruct (communities_shaped (index bgpData "communities")) eqn:Hc.
    2:{ destruct (index bgpData "communities") as [| | | |l|] eqn:Hcv;
          try done.
        destruct (parseBgpCommunities_misshaped l Hc) as [e ->]. by eexists. }
    destruct (parseBgpCommunities_returns _ Hc) as [cs ->]. simpl.
    destruct (communities_shaped (index bgpData "large_communities")) eqn:Hl.
    2:{ destruct (index bgpData "large_communities") as [| | | |l|] eqn:Hlv;
          try done.
        destruct (parseBgpCommunities_misshaped l Hl) as [e ->]. by eexists. }
    destruct (parseBgpCommunities_returns _ Hl) as [lcs ->]. simpl.
    destruct (index bgpData "local_pref"); try done; by eexists. }
  split; (split; [|done]).
  - intros [b Hr]. destruct (bgp_block_ok data) eqn:Hb; [done|].
    destruct (Hbad eq_refl) as [e He]. congruence.
  - intros [e He]. destruct (bgp_block_ok data) eqn:Hb; [|done].
    destruct (Hok eq_refl) as [b Hr]. congruence.
Qed.

Lemma parseRouteBgpInfo_returns_iff_witness :
  returns (birdwatcher.parseRouteBgpInfo (VObject bgp_block_defaults))
  /\ panics (birdwatcher.parseRouteBgpInfo bgp_block_no_local_pref).
Proof.
  split.
  - apply (proj2 (proj1 (parseRouteBgpInfo_returns_iff
                           (VObject bgp_block_defaults)))).
    vm_compute. reflexivity.
  - apply (proj2 (proj2 (parseRouteBgpInfo_returns_iff
                           bgp_block_no_local_pref))).
    vm_compute. reflexivity.
Defined.

(** *** The API status *)

(** X7.  [parseApiStatus] returns an error exactly when [api] is an object
    and the time library rejects [ttl]; the status it then returns is the
    zero status, even if [Version] or [result_from_cache] are missing.
    The error is never one of the block itself: a [ttl] that is not a
    string gives no error and the zero time, and a missing or mistyped
    [Version] or [result_from_cache] panics. *)
Theorem parseApiStatus_error `{TimeLib} (bird : gmap string value)
    (config : birdwatcher.Config) :
  (forall status err,
     birdwatcher.parseApiStatus bird config = Ret (status, Some err)
     <-> is_map (index bird "api") = true
         /\ status = birdwatcher.zero_ApiStatus
         /\ (birdwatcher.parseServerTime (index bird "ttl")
               birdwatcher.SERVER_TIME (birdwatcher.Timezone config)).2
            = Some err)
  /\ (forall status,
        birdwatcher.parseApiStatus bird config = Ret (status, None) ->
        exists birdApi,
          index bird "api" = VObject birdApi
          /\ index birdApi "Version" = VString (api.ApiStatus.Version status)
          /\ index birdApi "result_from_cache"
             = VBool (api.ApiStatus.ResultFromCache status)
          /\ api.ApiStatus.Ttl status
             = (birdwatcher.parseServerTime (index bird "ttl")
                  birdwatcher.SERVER_TIME (birdwatcher.Timezone config)).1
          /\ (is_string (index bird "ttl") = false ->
              api.ApiStatus.Ttl status = zero_time))
  /\ (is_string (index bird "ttl") = false ->
      forall status err,
        birdwatcher.parseApiStatus bird config <> Ret (status, Some err)).
Proof.
  assert (is_string (index bird "ttl") = false ->
          birdwatcher.parseServerTime (index bird "ttl")
            birdwatcher.SERVER_TIME (birdwatcher.Timezone config)
          = (zero_time, None)) as Hns.
  { intros Hs. by destruct (index bird "ttl"). }
  unfold birdwatcher.parseApiStatus.
  split; [|split].
  - intros status err.
    destruct (index bird "api") as [| | | | |birdApi]; simpl;
      try (split; [done|by intros [? _]]).
    destruct (birdwatcher.parseServerTime _ _ _) as [ttl [e|]]; simpl.
    + split; [by intros [= <- <-]|by intros (_ & -> & [= <-])].
    + split; [|by intros (_ & _ & ?)].
      destruct (index birdApi "Version"); simpl; try done.
      destruct (index birdApi "result_from_cache"); simpl; done.
  - intros status.
    destruct (index bird "api") as [| | | | |birdApi]; simpl; try done.
    destruct (birdwatcher.parseServerTime _ _ _) as [ttl [e|]] eqn:Ht;
      simpl; [done|].
    destruct (index birdApi "Version") eqn:Hver; simpl; try done.
    destruct (index birdApi "result_from_cache") eqn:Hrfc; simpl; try done.
    intros [= <-]. exists birdApi. simpl. repeat (split; [done|]).
    intros Hs. specialize (Hns Hs). congruence.
  - intros Hs status err. rewrite (Hns Hs).
    destruct (index bird "api") as [| | | | |birdApi]; simpl; try done.
    destruct (index birdApi "Version"); simpl; try done.
    destruct (index birdApi "result_from_cache"); simpl; done.
Qed.

(** A time to live that is no time, and one that is not a string. *)
Lemma parseApiStatus_error_witness :
  (exists err,
     birdwatcher.parseApiStatus (status_payload VNull (VString "yesterday"))
       utc_config <> Ret (birdwatcher.zero_ApiStatus, Some err)
     /\ birdwatcher.parseApiStatus
          (status_payload (VObject ∅) (VString "yesterday")) utc_config
        = Ret (birdwatcher.zero_ApiStatus, Some err))
  /\ exists status,
       birdwatcher.parseApiStatus (status_payload api_block (VNumber 60))
         utc_config = Ret (status, None)
       /\ api.ApiStatus.Ttl status = zero_time.
Proof.
  split.
  - exists (ErrOther "parsing time: layout"). split.
    + intros Hr.
      apply (proj1 (parseApiStatus_error
                      (status_payload VNull (VString "yesterday")) utc_config))
        in Hr as [Hm _].
      vm_compute in Hm. discriminate.
    + apply (proj1 (parseApiStatus_error
                      (status_payload (VObject ∅) (VString "yesterday"))
                      utc_config)).
      repeat split; vm_compute; reflexivity.
  - assert (exists status,
              birdwatcher.parseApiStatus
                (status_payload api_block (VNumber 60)) utc_config
              = Ret (status, None)) as [status Hr]
      by (vm_compute; eexists; reflexivity).
    exists status. split; [exact Hr|].
    destruct (proj1 (proj2 (parseApiStatus_error
                (status_payload api_block (VNumber 60)) utc_config))
                status Hr) as (birdApi & _ & _ & _ & _ & Hz).
    apply Hz. vm_compute. reflexivity.
Defined.

(* ===================================================================== *)
(** ** The API: source identifiers and the handlers                       *)
(* ===================================================================== *)

Lemma validateSourceId_ok (AliceConfig : main.Config) (id : string) (rsId : Z) :
  main.validateSourceId AliceConfig id = (rsId, None) ->
  strconv_Atoi id = (rsId, None)
  /\ 0 <= rsId < main.len (main.Sources AliceConfig).
Proof.
  unfold main.validateSourceId.
  destruct (strconv_Atoi id) as [n [e|]]; [done|].
  destruct (Z.ltb_spec n 0); [done|].
  destruct (Z.geb_spec n (main.len (main.Sources AliceConfig))); [done|].
  intros [= <-]. split; [done|lia].
Qed.

Lemma validateSourceId_error (AliceConfig : main.Config) (id : string)
    (rsId : Z) (err : error) :
  main.validateSourceId AliceConfig id = (rsId, Some err) -> rsId = 0.
Proof.
  unfold main.validateSourceId.
  destruct (strconv_Atoi id) as [n [e|]]; [by intros [= <- _]|].
  destruct (Z.ltb_spec n 0); [by intros [= <- _]|].
  destruct (Z.geb_spec n (main.len (main.Sources AliceConfig)));
    [by intros [= <- _]|done].
Qed.

Lemma slice_index_in_range {A : Type} (l : list A) (i : Z) :
  0 <= i < main.len l -> is_Some (slice_index l i).
Proof.
  unfold slice_index, main.len. intros Hi.
  destruct (Z.ltb_spec i 0); [lia|].
  apply lookup_lt_is_Some. lia.
Qed.

(** X8.  A source id that [validateSourceId] accepts is the integer
    [strconv.Atoi] reads from the string, not negative and smaller than
    the number of configured sources, so that indexing the sources with
    it never goes out of range; every other string is rejected with an
    error and the id 0.  Every string that reads as an integer in that
    range is accepted. *)
Theorem validateSourceId_bounds (AliceConfig : main.Config) (id : string) :
  (forall rsId,
     main.validateSourceId AliceConfig id = (rsId, None)
     <-> strconv_Atoi id = (rsId, None)
         /\ 0 <= rsId < main.len (main.Sources AliceConfig))
  /\ (forall rsId,
        main.validateSourceId AliceConfig id = (rsId, None) ->
        is_Some (slice_index (main.Sources AliceConfig) rsId))
  /\ (forall rsId err,
        main.validateSourceId AliceConfig id = (rsId, Some err) -> rsId = 0)
  /\ (main.Sources AliceConfig = [] ->
      exists err, main.validateSourceId AliceConfig id = (0, Some err)).
Proof.
  split; [|split; [|split]].
  - intros rsId. split; [apply validateSourceId_ok|].
    intros [Ha Hr]. unfold main.validateSourceId. rewrite Ha.
    destruct (Z.ltb_spec rsId 0); [lia|].
    destruct (Z.geb_spec rsId (main.len (main.Sources AliceConfig)));
      [lia|done].
  - intros rsId Hv. apply slice_index_in_range.
    by apply validateSourceId_ok in Hv as [_ ?].
  - apply validateSourceId_error.
  - intros Hempty. unfold main.validateSourceId. rewrite Hempty.
    destruct (strconv_Atoi id) as [n [e|]]; [by eexists|].
    destruct (Z.ltb_spec n 0); [by eexists|].
    destruct (Z.geb_spec n (main.len (@nil main.SourceConfig)));
      [by eexists|]. unfold main.len in *. simpl in *. lia.
Qed.

Lemma validateSourceId_bounds_witness :
  main.validateSourceId two_sources "1" = (1, None)
  /\ is_Some (slice_index (main.Sources two_sources) 1)
  /\ exists err, main.validateSourceId {| main.Sources := [] |} "0"
                 = (0, Some err).
Proof.
  assert (main.validateSourceId two_sources "1" = (1, None)) as Hv.
  { apply (proj2 (proj1 (validateSourceId_bounds two_sources "1") 1)).
    split; [reflexivity|]. unfold main.len. simpl. lia. }
  split; [exact Hv|]. split.
  - exact (proj1 (proj2 (validateSourceId_bounds two_sources "1")) 1 Hv).
  - apply (proj2 (proj2 (proj2
             (validateSourceId_bounds {| main.Sources := [] |} "0")))).
    reflexivity.
Defined.

Example validateSourceId_examples :
  main.validateSourceId two_sources "2"
  = (0, Some (Errorf "Source id not within [0, 1]"))
  /\ main.validateSourceId two_sources "-1"
     = (0, Some (Errorf "Source id may not be negative"))
  /\ main.validateSourceId two_sources "rs1"
     = (0, Some (ErrSyntax "Atoi" "rs1"))
  /\ main.validateSourceId {| main.Sources := [] |} "0"
     = (0, Some (Errorf "Source id not within [0, -1]")).
Proof. vm_compute. repeat split. Qed.

(** X9.  The handlers of the per-source endpoints never index the sources
    out of range, whatever the [id] parameter.  When the id is rejected
    they return no result and the error of the validation, without
    consulting any source; otherwise they return, as they are, the result
    and the error of the query on the source configured under that id,
    [apiRoutesList] for the neighbour of the [neighbourId] parameter. *)
Theorem handlers_select_source {S N R : Type} (AliceConfig : main.Config)
    (instances : main.Source -> main.Answers.t S N R) (params : main.Params) :
  (is_Some (main.apiStatus AliceConfig instances params)
   /\ is_Some (main.apiNeighboursList AliceConfig instances params)
   /\ is_Some (main.apiRoutesList AliceConfig instances params))
  /\ (forall rsId err,
        main.validateSourceId AliceConfig (main.ByName params "id")
        = (rsId, Some err) ->
        main.apiStatus AliceConfig instances params = Some (None, Some err)
        /\ main.apiNeighboursList AliceConfig instances params
           = Some (None, Some err)
        /\ main.apiRoutesList AliceConfig instances params
           = Some (None, Some err))
  /\ (forall rsId,
        main.validateSourceId AliceConfig (main.ByName params "id")
        = (rsId, None) ->
        exists source,
          main.Sources AliceConfig !! Z.to_nat rsId = Some source
          /\ let answers := instances (main.getInstance source) in
             main.apiStatus AliceConfig instances params
             = Some (Some (main.Answers.Status answers).1,
                     (main.Answers.Status answers).2)
             /\ main.apiNeighboursList AliceConfig instances params
                = Some (Some (main.Answers.Neighbours answers).1,
                        (main.Answers.Neighbours answers).2)
             /\ main.apiRoutesList AliceConfig instances params
                = Some (Some (main.Answers.Routes answers
                                (main.ByName params "neighbourId")).1,
                        (main.Answers.Routes answers
                           (main.ByName params "neighbourId")).2)).
Proof.
  assert (forall rsId,
            main.validateSourceId AliceConfig (main.ByName params "id")
            = (rsId, None) ->
            exists source,
              main.Sources AliceConfig !! Z.to_nat rsId = Some source
              /\ slice_index (main.Sources AliceConfig) rsId = Some source)
    as Hsel.
  { intros rsId Hv. apply validateSourceId_ok in Hv as [_ Hr].
    destruct (slice_index_in_range (main.Sources AliceConfig) rsId Hr)
      as [source Hs].
    exists source. split; [|done]. unfold slice_index in Hs.
    by destruct (Z.ltb_spec rsId 0); [lia|]. }
  unfold main.apiStatus, main.apiNeighboursList, main.apiRoutesList.
  destruct (main.validateSourceId AliceConfig (main.ByName params "id"))
    as [rsId [err|]] eqn:Hv.
  - split; [by repeat split|]. split; [by intros ? ? [= <- <-]|done].
  - destruct (Hsel rsId eq_refl) as (source & Hl & Hs). rewrite Hs. simpl.
    destruct (main.Answers.Status (instances (main.getInstance source)))
      as [s es] eqn:Hst.
    destruct (main.Answers.Neighbours (instances (main.getInstance source)))
      as [n en] eqn:Hne.
    destruct (main.Answers.Routes (instances (main.getInstance source))
                (main.ByName params "neighbourId")) as [r er] eqn:Hro.
    split; [by repeat split|]. split; [done|].
    intros ? [= <-]. exists source. split; [done|]. simpl.
    by rewrite Hst, Hne, Hro.
Qed.

Lemma handlers_select_source_witness :
  main.apiStatus two_sources named_instances (route_params "1" "R1")
  = Some (Some "status of 2", None)
  /\ main.apiRoutesList two_sources named_instances (route_params "1" "R1")
     = Some (Some "routes of R1 at 2", None)
  /\ exists err,
       main.apiNeighboursList two_sources named_instances
         (route_params "7" "R1") = Some (None, Some err).
Proof.
  destruct (handlers_select_source two_sources named_instances
              (route_params "1" "R1")) as (_ & _ & Hok).
  destruct (Hok 1) as (source & Hs & H1 & _ & H3); [reflexivity|].
  vm_compute in Hs. injection Hs as <-.
  split; [exact H1|]. split; [exact H3|].
  destruct (handlers_select_source two_sources named_instances
              (route_params "7" "R1")) as (_ & Herr & _).
  eexists. apply (Herr 0). vm_compute. reflexivity.
Defined.

(** *** Decimal identifiers *)

Lemma digit_of_pretty_N_char (d : N) :
  (d < 10)%N -> digit_of (pretty_N_char d) = Some (Z.of_N d).
Proof.
  intros Hd.
  assert (d = 0 \/ d = 1 \/ d = 2 \/ d = 3 \/ d = 4 \/ d = 5 \/ d = 6
          \/ d = 7 \/ d = 8 \/ d = 9)%N as Hcases by lia.
  repeat (destruct Hcases as [->|Hcases]; [reflexivity|]). by subst.
Qed.

(** Reading the decimal digits of [x] gives [x] back. *)
Lemma parse_digits_pretty_N_go (x : N) (s : string) :
  parse_digits (pretty_N_go x s) 0 = parse_digits s (Z.of_N x).
Proof.
  revert s. induction (N.lt_wf_0 x) as [x _ IH]; intros s.
  destruct (decide (0 < x)%N) as [Hx|Hx].
  - rewrite pretty_N_go_step by done.
    rewrite IH by (by apply N.div_lt).
    simpl. rewrite digit_of_pretty_N_char by (by apply N.mod_lt).
    f_equal. rewrite (N.div_mod x 10) at 3 by done. lia.
  - assert (x = 0%N) as -> by lia. by rewrite pretty_N_go_0.
Qed.

Lemma parse_digits_no_sign (s : string) (acc v : Z) :
  parse_digits s acc = Some v -> split_sign s = (false, s).
Proof.
  destruct s as [|c s]; [done|]. simpl.
  destruct (digit_of c) eqn:Hc; [|done]. intros _.
  destruct c as [[] [] [] [] [] [] [] []]; try done.
Qed.

(** [strconv.Atoi] reads back an integer written in decimal. *)
Lemma strconv_Atoi_pretty (n : Z) :
  0 <= n <= maxInt64 -> strconv_Atoi (pretty n) = (n, None).
Proof.
  intros Hn.
  assert (parse_digits (pretty n) 0 = Some n /\ pretty n <> "") as [Hp Hne].
  { destruct n as [|p|p]; [done| |lia].
    change (pretty (Z.pos p)) with (pretty (N.pos p)).
    unfold pretty, pretty_N. destruct (decide (N.pos p = 0%N)); [done|].
    assert (parse_digits (pretty_N_go (N.pos p) "") 0 = Some (Z.pos p)) as Hp
      by (by rewrite parse_digits_pretty_N_go).
    split; [done|]. intros Hs. rewrite Hs in Hp. done. }
  unfold strconv_Atoi. rewrite (parse_digits_no_sign _ _ _ Hp).
  destruct (pretty n) as [|c s]; [done|]. rewrite Hp.
  unfold maxInt64, minInt64 in *.
  destruct (Z.gtb_spec n 9223372036854775807); [lia|].
  destruct (Z.ltb_spec n (-9223372036854775808)); [lia|done].
Qed.

(** *** The list of route servers *)

Lemma apiRouteserversList_loop (sources : list main.SourceConfig)
    (k : nat) (acc : list api.Routeserver.t) :
  foldl
    (fun routeservers '(id, source) =>
       go_append routeservers
         {| api.Routeserver.Id := id;
            api.Routeserver.Name := main.Name source |})
    acc (imap (fun i x => (Z.of_nat (k + i), x)) sources)
  = acc ++ imap (fun i source =>
                   {| api.Routeserver.Id := Z.of_nat (k + i);
                      api.Routeserver.Name := main.Name source |}) sources.
Proof.
  revert k acc. induction sources as [|source sources IH]; intros k acc.
  - simpl. by rewrite app_nil_r.
  - rewrite !imap_cons. simpl.
    rewrite (imap_ext _ (fun i x => (Z.of_nat (S k + i), x)))
      by (intros; simpl; f_equal; lia).
    rewrite IH. unfold go_append. rewrite <- app_assoc. simpl.
    do 2 f_equal. apply imap_ext. intros. simpl. do 2 f_equal. lia.
Qed.

Lemma apiRouteserversList_imap (AliceConfig : main.Config) :
  api.RouteserversResponse.Routeservers (main.apiRouteserversList AliceConfig).1
  = imap (fun i source =>
            {| api.Routeserver.Id := Z.of_nat i;
               api.Routeserver.Name := main.Name source |})
      (main.Sources AliceConfig).
Proof. exact (apiRouteserversList_loop (main.Sources AliceConfig) 0 []). Qed.

(** X10.  [apiRouteserversList] never fails and lists every configured
    source once, in the order of the configuration, with its position as
    id and its display name.  Every id it lists, written in decimal, is
    accepted by [validateSourceId] and selects the source of that name:
    the ids of the list are the ids of the per-source endpoints. *)
Theorem apiRouteserversList_ids (AliceConfig : main.Config) :
  main.len (main.Sources AliceConfig) <= maxInt64 ->
  let response := (main.apiRouteserversList AliceConfig).1 in
  (main.apiRouteserversList AliceConfig).2 = None
  /\ length (api.RouteserversResponse.Routeservers response)
     = length (main.Sources AliceConfig)
  /\ forall i r,
       api.RouteserversResponse.Routeservers response !! i = Some r ->
       api.Routeserver.Id r = Z.of_nat i
       /\ main.validateSourceId AliceConfig (pretty (api.Routeserver.Id r))
          = (api.Routeserver.Id r, None)
       /\ exists source,
            slice_index (main.Sources AliceConfig) (api.Routeserver.Id r)
            = Some source
            /\ main.Name source = api.Routeserver.Name r.
Proof.
  intros Hlen response. split; [done|]. split.
  - unfold response. rewrite apiRouteserversList_imap. apply length_imap.
  - intros i r Hr. unfold response in Hr.
    rewrite apiRouteserversList_imap, list_lookup_imap in Hr.
    destruct (main.Sources AliceConfig !! i) as [source|] eqn:Hs; [|done].
    injection Hr as <-. simpl.
    pose proof (lookup_lt_Some _ _ _ Hs) as Hlt. unfold main.len in Hlen.
    split; [done|]. split.
    + unfold main.validateSourceId.
      rewrite strconv_Atoi_pretty by lia.
      destruct (Z.ltb_spec (Z.of_nat i) 0); [lia|].
      unfold main.len.
      destruct (Z.geb_spec (Z.of_nat i)
                  (Z.of_nat (length (main.Sources AliceConfig)))); [lia|done].
    + exists source. split; [|done]. unfold slice_index.
      destruct (Z.ltb_spec (Z.of_nat i) 0); [lia|]. by rewrite Nat2Z.id.
Qed.

Lemma apiRouteserversList_ids_witness :
  api.RouteserversResponse.Routeservers (main.apiRouteserversList two_sources).1
  = [ {| api.Routeserver.Id := 0; api.Routeserver.Name := "rs1" |};
      {| api.Routeserver.Id := 1; api.Routeserver.Name := "rs2" |} ]
  /\ main.validateSourceId two_sources (pretty 1) = (1, None).
Proof.
  split; [vm_compute; reflexivity|].
  destruct (apiRouteserversList_ids two_sources) as (_ & _ & Hall).
  - vm_compute. discriminate.
  - exact (proj1 (proj2 (Hall 1%nat
             {| api.Routeserver.Id := 1; api.Routeserver.Name := "rs2" |}
             eq_refl))).
Defined.

(* ===================================================================== *)
(** ** More on the routes store                                           *)
(* ===================================================================== *)

Lemma NewRoutesStore_loop_dom (sources : list main.SourceConfig)
    (routesMap : gmap main.Source api.RoutesResponse.t)
    (statusMap : gmap main.Source main.StoreStatus)
    (configMap : gmap main.Source main.SourceConfig) :
  let '(routesMap', statusMap', configMap') :=
    foldl
      (fun '(routesMap, statusMap, configMap) source =>
         let instance := main.getInstance source in
         let configMap := <[instance := source]> configMap in
         let routesMap := <[instance := main.zero_RoutesResponse]> routesMap in
         let statusMap :=
           <[instance := {| main.LastRefresh := zero_time;
                            main.LastError := None;
                            main.State := main.STATE_INIT |}]> statusMap in
         (routesMap, statusMap, configMap))
      (routesMap, statusMap, configMap) sources in
  dom routesMap'
  = list_to_set (main.getInstance <$> sources) ∪ dom routesMap
  /\ dom statusMap'
     = list_to_set (main.getInstance <$> sources) ∪ dom statusMap
  /\ dom configMap'
     = list_to_set (main.getInstance <$> sources) ∪ dom configMap.
Proof.
  revert routesMap statusMap configMap.
  induction sources as [|c sources IH]; intros rm sm cm; csimpl.
  - by rewrite !(left_id_L ∅ (∪)).
  - specialize (IH (<[main.getInstance c := main.zero_RoutesResponse]> rm)
                  (<[main.getInstance c :=
                       {| main.LastRefresh := zero_time;
                          main.LastError := None;
                          main.State := main.STATE_INIT |}]> sm)
                  (<[main.getInstance c := c]> cm)).
    destruct (foldl _ _ sources) as [[rm' sm'] cm'].
    destruct IH as (-> & -> & ->). rewrite !dom_insert_L.
    repeat split; set_solver.
Qed.

Lemma NewRoutesStore_keys (config : main.Config) :
  keys_agree (main.NewRoutesStore config) (configured config).
Proof.
  unfold keys_agree, configured, main.NewRoutesStore.
  pose proof (NewRoutesStore_loop_dom (main.Sources config) ∅ ∅ ∅) as Hd.
  destruct (foldl _ _ (main.Sources config)) as [[rm sm] cm]. simpl.
  destruct Hd as (-> & -> & ->). rewrite !dom_empty_L.
  repeat split; set_solver.
Qed.

Section StoreKeys.
Context (env : main.Backends).
Implicit Types (p : main.Process) (keys : gset main.Source).

Lemma update_source_keys source p keys :
  source ∈ keys ->
  keys_agree (main.store p) keys ->
  keys_agree (main.store (main.update_source env source p)) keys.
Proof.
  intros Hin (Hr & Hs & Hc). unfold main.update_source.
  destruct (_ =? _); [done|]. unfold main.call_AllRoutes, keys_agree.
  destruct (main.AllRoutes (env source)) as [routes [err|]]; simpl;
    rewrite ?dom_insert_L, Hr, Hs, Hc; repeat split; set_solver.
Qed.

Lemma update_list_keys (l : list (main.Source * api.RoutesResponse.t)) p keys :
  Forall (fun x => x.1 ∈ keys) l ->
  keys_agree (main.store p) keys ->
  keys_agree (main.store (update_list env l p)) keys.
Proof.
  revert p. induction l as [|[source r] l IH]; intros p Hl Hk; [done|].
  apply Forall_cons in Hl as [Hin Hl]. unfold update_list in *. simpl.
  by apply IH, update_source_keys.
Qed.

Lemma update_keys rho p keys :
  range_valid rho ->
  keys_agree (main.store p) keys ->
  keys_agree (main.store (main.update rho env p)) keys.
Proof.
  intros Hv Hk. apply (update_list_keys (rho _)); [|done].
  apply Forall_forall. intros [source r] Hin. simpl.
  rewrite (Hv _) in Hin. apply elem_of_map_to_list in Hin.
  destruct Hk as (<- & _). apply elem_of_dom. by eexists.
Qed.

(** A backend in state UPDATING is passed over by the whole loop. *)
Lemma update_list_updating (l : list (main.Source * api.RoutesResponse.t))
    source p :
  main.State (main.status_of (main.store p) source) = main.STATE_UPDATING ->
  view source (update_list env l p) = view source p.
Proof.
  revert p. induction l as [|[source' r] l IH]; intros p Hs; [done|].
  unfold update_list in *. simpl.
  destruct (decide (source' = source)) as [->|Hne].
  - rewrite update_source_updating by done. by apply IH.
  - pose proof (update_source_other env source source' p Hne) as Hview.
    rewrite IH; [done|].
    unfold main.status_of.
    replace (main.statusMap (main.store (main.update_source env source' p))
               !! source)
      with (main.statusMap (main.store p) !! source); [done|].
    symmetry. exact (f_equal (fun v => v.1.2) Hview).
Qed.
End StoreKeys.

Lemma run_keys cycles (p : main.Process) (keys : gset main.Source) :
  Forall (fun c => range_valid c.1) cycles ->
  keys_agree (main.store p) keys ->
  keys_agree (main.store (run cycles p)) keys
  /\ main.configMap (main.store (run cycles p))
     = main.configMap (main.store p).
Proof.
  revert p. induction cycles as [|[rho env] cycles IH]; intros p Hv Hk;
    [done|].
  apply Forall_cons in Hv as [Hrho Hv]. simpl in Hrho.
  change (run ((rho, env) :: cycles) p)
    with (run cycles (main.update rho env p)).
  destruct (IH (main.update rho env p) Hv) as [Hk' Hc'];
    [by apply update_keys|].
  split; [done|]. rewrite Hc'.
  apply (update_list_configMap env (rho (main.routesMap (main.store p)))).
Qed.

Lemma store_keys_run (config : main.Config) (t0 : time_Time)
    (cycles : list (range_order main.Source api.RoutesResponse.t
                    * main.Backends)) :
  Forall (fun c => range_valid c.1) cycles ->
  keys_agree (main.store (run cycles (main.boot config t0)))
    (configured config).
Proof.
  intros Hv. apply run_keys; [done|]. apply NewRoutesStore_keys.
Qed.

(** X11.  The store built by [NewRoutesStore] has, in each of its three
    maps, exactly one entry per configured source, and no refresh cycle
    ever adds or removes an entry or touches the configuration map. *)
Theorem store_keys_invariant (config : main.Config) (t0 : time_Time)
    (cycles : list (range_order main.Source api.RoutesResponse.t
                    * main.Backends)) :
  Forall (fun c => range_valid c.1) cycles ->
  keys_agree (main.store (run cycles (main.boot config t0)))
    (configured config)
  /\ main.configMap (main.store (run cycles (main.boot config t0)))
     = main.configMap (main.NewRoutesStore config).
Proof.
  intros Hv. apply run_keys; [done|]. apply NewRoutesStore_keys.
Qed.

Lemma store_keys_invariant_witness :
  dom (main.routesMap
         (main.store (run two_cycles (main.boot two_sources t_2020))))
  = {[ 1%nat; 2%nat ]}.
Proof.
  destruct (store_keys_invariant two_sources t_2020 two_cycles)
    as [(Hr & _) _].
  - repeat constructor; [apply map_to_list_valid|apply reverse_order_valid].
  - rewrite Hr. unfold configured. simpl. set_solver.
Defined.

(** *** Statistics *)

Lemma sum_counts_fmap (self : main.RoutesStore)
    (l : list (main.Source * api.RoutesResponse.t)) :
  sum_imported ((fun x => main.serverStats self x.1 x.2) <$> l)
  = foldr (fun x n => main.len (api.RoutesResponse.Imported x.2) + n) 0 l
  /\ sum_filtered ((fun x => main.serverStats self x.1 x.2) <$> l)
     = foldr (fun x n => main.len (api.RoutesResponse.Filtered x.2) + n) 0 l.
Proof.
  unfold sum_imported, sum_filtered.
  induction l as [|x l [IHi IHf]]; csimpl; [done|]. by rewrite IHi, IHf.
Qed.

Lemma sum_Permutation {A : Type} (h : A -> Z) (l1 l2 : list A) :
  l1 ≡ₚ l2 ->
  foldr (fun x n => h x + n) 0 l1 = foldr (fun x n => h x + n) 0 l2.
Proof.
  induction 1 as [|x l1 l2 _ IH|x y l|l1 l2 l3 _ IH1 _ IH2]; simpl;
    [done|by rewrite IH|lia|by rewrite IH1].
Qed.

(** X12.  The totals of [Stats] are the sums of the per-backend counts it
    reports, it reports one summary per backend of the store, and neither
    the totals nor the set of summaries depend on the order in which the
    map of the store is visited. *)
Theorem Stats_totals (rho rho' : range_order main.Source api.RoutesResponse.t)
    (self : main.RoutesStore) :
  range_valid rho -> range_valid rho' ->
  let stats := main.Stats rho self in
  main.Imported (main.TotalRoutes stats)
  = sum_imported (main.RouteServers stats)
  /\ main.Filtered (main.TotalRoutes stats)
     = sum_filtered (main.RouteServers stats)
  /\ length (main.RouteServers stats) = size (main.routesMap self)
  /\ main.TotalRoutes (main.Stats rho' self) = main.TotalRoutes stats
  /\ main.RouteServers (main.Stats rho' self) ≡ₚ main.RouteServers stats.
Proof.
  intros Hv Hv' stats. unfold stats.
  rewrite !Stats_RouteServers, !Stats_TotalRoutes. simpl.
  destruct (sum_counts_fmap self (rho (main.routesMap self))) as [-> ->].
  split; [done|]. split; [done|]. split; [|split].
  - rewrite length_fmap, (Hv _). apply length_map_to_list.
  - assert (rho' (main.routesMap self) ≡ₚ rho (main.routesMap self)) as Hp
      by (by rewrite (Hv _), (Hv' _)).
    f_equal; by apply sum_Permutation.
  - by rewrite (Hv _), (Hv' _).
Qed.

Lemma Stats_totals_witness :
  main.TotalRoutes (main.Stats reverse_order (main.store both_cached))
  = main.TotalRoutes (main.Stats map_to_list (main.store both_cached))
  /\ main.Imported
       (main.TotalRoutes (main.Stats map_to_list (main.store both_cached)))
     = sum_imported
         (main.RouteServers (main.Stats map_to_list (main.store both_cached))).
Proof.
  destruct (Stats_totals map_to_list reverse_order (main.store both_cached)
              map_to_list_valid reverse_order_valid)
    as (Hi & _ & _ & Ht & _).
  split; [exact Ht|exact Hi].
Defined.

(** X13.  The store built by [NewRoutesStore] reports zero routes in
    total, and for every backend zero routes, the state INIT and the zero
    time as the time of its last refresh. *)
Theorem new_store_stats (config : main.Config)
    (rho : range_order main.Source api.RoutesResponse.t) :
  range_valid rho ->
  let stats := main.Stats rho (main.NewRoutesStore config) in
  main.TotalRoutes stats = {| main.Filtered := 0; main.Imported := 0 |}
  /\ length (main.RouteServers stats) = size (configured config)
  /\ Forall (fun r =>
               main.RouteServerStats.Routes r
               = {| main.Filtered := 0; main.Imported := 0 |}
               /\ main.RouteServerStats.State r = "INIT"
               /\ main.RouteServerStats.UpdatedAt r = zero_time)
       (main.RouteServers stats).
Proof.
  intros Hv stats. unfold stats.
  assert (Forall (fun x : main.Source * api.RoutesResponse.t =>
                    x.2 = main.zero_RoutesResponse
                    /\ main.statusMap (main.NewRoutesStore config) !! x.1
                       = Some {| main.LastRefresh := zero_time;
                                 main.LastError := None;
                                 main.State := main.STATE_INIT |})
            (rho (main.routesMap (main.NewRoutesStore config)))) as Hall.
  { apply Forall_forall. intros [source routes] Hin. simpl.
    rewrite (Hv _) in Hin. apply elem_of_map_to_list in Hin.
    assert (source ∈ main.getInstance <$> main.Sources config) as Hc.
    { destruct (NewRoutesStore_keys config) as (Hd & _).
      apply (elem_of_list_to_set (C:=gset main.Source)).
      fold (configured config). rewrite <- Hd. apply elem_of_dom. by eexists. }
    pose proof (boot_view config 0 source Hc) as Hb.
    pose proof (f_equal (fun v => v.1.1) Hb) as Hr.
    pose proof (f_equal (fun v => v.1.2) Hb) as Hst.
    unfold view in Hr, Hst. simpl in Hr, Hst. split; [congruence|done]. }
  rewrite Stats_RouteServers, Stats_TotalRoutes.
  split; [|split].
  - induction Hall as [|x l [Hx _] _ IH]; simpl; [done|].
    injection IH as -> ->. by rewrite Hx.
  - rewrite length_fmap, (Hv _), length_map_to_list.
    destruct (NewRoutesStore_keys config) as (<- & _). by rewrite size_dom.
  - apply Forall_fmap. eapply Forall_impl; [exact Hall|].
    intros [source routes] [Hr Hst]. simpl in *. subst routes.
    unfold main.serverStats, main.status_of. simpl. by rewrite Hst.
Qed.

Lemma new_store_stats_witness :
  main.TotalRoutes (main.Stats reverse_order (main.NewRoutesStore two_sources))
  = {| main.Filtered := 0; main.Imported := 0 |}
  /\ length (main.RouteServers
               (main.Stats reverse_order (main.NewRoutesStore two_sources)))
     = 2%nat.
Proof.
  destruct (new_store_stats two_sources reverse_order reverse_order_valid)
    as (Ht & Hl & _).
  split; [exact Ht|]. rewrite Hl. vm_compute. reflexivity.
Defined.

(** *** One refresh cycle, backend by backend *)

(** What a cycle does to one backend depends on the store before the
    cycle and on the answer of that backend only. *)
Lemma update_view_cases rho env (p : main.Process) (source : main.Source) :
  range_valid rho ->
  (view source (main.update rho env p) = view source p
   /\ (main.routesMap (main.store p) !! source = None
       \/ main.State (main.status_of (main.store p) source)
          = main.STATE_UPDATING))
  \/ (is_Some (main.routesMap (main.store p) !! source)
      /\ main.State (main.status_of (main.store p) source)
         <> main.STATE_UPDATING
      /\ exists t,
           main.clock p <= t <= main.clock (main.update rho env p)
           /\ view source (main.update rho env p)
              = (match main.AllRoutes (env source) with
                 | (_, Some _) => main.routesMap (main.store p) !! source
                 | (routes, None) => Some routes
                 end,
                 Some {| main.LastRefresh := t;
                         main.LastError := (main.AllRoutes (env source)).2;
                         main.State := refresh_result env source |},
                 trace_of source (main.status_log p)
                 ++ [main.STATE_UPDATING; refresh_result env source])).
Proof.
  intros Hv.
  change (main.update rho env p)
    with (update_list env (rho (main.routesMap (main.store p))) p).
  destruct (main.routesMap (main.store p) !! source) as [cached|] eqn:Hc.
  - destruct (decide (main.State (main.status_of (main.store p) source)
                      = main.STATE_UPDATING)) as [Hs|Hs].
    + left. split; [by apply update_list_updating|by right].
    + right. split; [by eexists|]. split; [done|].
      destruct (update_list_self env source
                  (rho (main.routesMap (main.store p))) p
                  (range_valid_NoDup rho _ Hv)) as (t & Ht & Hview);
        [|done|].
      { apply list_elem_of_fmap. exists (source, cached).
        split; [done|by apply range_valid_elem]. }
      exists t. split; [done|]. by rewrite Hview, Hc.
  - left. split; [|by left]. apply update_list_other.
    intros Hin. apply list_elem_of_fmap in Hin as ([s r] & -> & Hin).
    rewrite (Hv _) in Hin. apply elem_of_map_to_list in Hin. simpl in *.
    congruence.
Qed.

(** X14.  In a refresh cycle, what happens to one backend does not depend
    on the other backends: two cycles from the same store in which the
    backend gives the same answer leave it with the same cache, the same
    state, the same last error and the same recorded states, whatever the
    other backends answer and in whatever order the backends are
    visited. *)
Theorem backends_are_isolated
    (rho1 rho2 : range_order main.Source api.RoutesResponse.t)
    (env1 env2 : main.Backends) (p : main.Process) (source : main.Source) :
  range_valid rho1 -> range_valid rho2 ->
  main.AllRoutes (env1 source) = main.AllRoutes (env2 source) ->
  let p1 := main.update rho1 env1 p in
  let p2 := main.update rho2 env2 p in
  main.routesMap (main.store p1) !! source
  = main.routesMap (main.store p2) !! source
  /\ main.State <$> main.statusMap (main.store p1) !! source
     = main.State <$> main.statusMap (main.store p2) !! source
  /\ main.LastError <$> main.statusMap (main.store p1) !! source
     = main.LastError <$> main.statusMap (main.store p2) !! source
  /\ trace_of source (main.status_log p1)
     = trace_of source (main.status_log p2).
Proof.
  intros Hv1 Hv2 Henv p1 p2. unfold p1, p2.
  assert (refresh_result env1 source = refresh_result env2 source) as Hres
    by (unfold refresh_result; by rewrite Henv).
  destruct (update_view_cases rho1 env1 p source Hv1)
    as [[Hview1 Hc1]|(Hk1 & Hs1 & t1 & _ & Hview1)];
    destruct (update_view_cases rho2 env2 p source Hv2)
      as [[Hview2 Hc2]|(Hk2 & Hs2 & t2 & _ & Hview2)].
  - rewrite <- Hview2 in Hview1. unfold view in Hview1.
    injection Hview1 as -> -> ->. done.
  - destruct Hc1 as [Hc1|Hc1]; [|done]. rewrite Hc1 in Hk2.
    by destruct Hk2.
  - destruct Hc2 as [Hc2|Hc2]; [|done]. rewrite Hc2 in Hk1.
    by destruct Hk1.
  - unfold view in Hview1, Hview2.
    injection Hview1 as -> -> ->. injection Hview2 as -> -> ->.
    simpl. rewrite Henv, Hres. done.
Qed.

Lemma backends_are_isolated_witness :
  main.routesMap (main.store (main.update map_to_list both_answer
                                (main.boot two_sources t_2020))) !! 2%nat
  = main.routesMap (main.store (main.update reverse_order first_fails
                                  (main.boot two_sources t_2020))) !! 2%nat.
Proof.
  exact (proj1 (backends_are_isolated map_to_list reverse_order both_answer
                  first_fails (main.boot two_sources t_2020) 2%nat
                  map_to_list_valid reverse_order_valid eq_refl)).
Defined.

(** X15.  When the [AllRoutes()] call of a backend succeeds during a
    refresh, the cycle replaces the cache of the backend by the routes
    returned, whole, and sets its status to READY with no error and a time
    within the cycle; [Stats] then reports the counts of the new routes
    with the state READY. *)
Theorem update_success_replaces_cache
    (rho rho' : range_order main.Source api.RoutesResponse.t)
    (env : main.Backends) (p : main.Process) (source : main.Source)
    (routes : api.RoutesResponse.t) :
  range_valid rho -> range_valid rho' ->
  is_Some (main.routesMap (main.store p) !! source) ->
  main.State (main.status_of (main.store p) source) <> main.STATE_UPDATING ->
  main.AllRoutes (env source) = (routes, None) ->
  main.routesMap (main.store (main.update rho env p)) !! source = Some routes
  /\ exists t,
       main.clock p <= t <= main.clock (main.update rho env p)
       /\ main.statusMap (main.store (main.update rho env p)) !! source
          = Some {| main.LastRefresh := t;
                    main.LastError := None;
                    main.State := main.STATE_READY |}
       /\ {| main.RouteServerStats.Name :=
               main.Name (default main.zero_SourceConfig
                            (main.configMap (main.store p) !! source));
             main.RouteServerStats.Routes :=
               {| main.Filtered :=
                    main.len (api.RoutesResponse.Filtered routes);
                  main.Imported :=
                    main.len (api.RoutesResponse.Imported routes) |};
             main.RouteServerStats.State := "READY";
             main.RouteServerStats.UpdatedAt := t |}
          ∈ main.RouteServers
              (main.Stats rho' (main.store (main.update rho env p))).
Proof.
  intros Hv Hv' Hk Hs Hf.
  destruct (update_view_cases rho env p source Hv)
    as [[_ [Hc|Hc]]|(_ & _ & t & Ht & Hview)];
    [rewrite Hc in Hk; by destruct Hk|done|].
  unfold view, refresh_result in Hview. rewrite Hf in Hview. simpl in Hview.
  injection Hview as Hr Hst _.
  split; [done|]. exists t. split; [done|]. split; [done|].
  rewrite Stats_RouteServers. apply list_elem_of_fmap.
  exists (source, routes). split; [|by apply range_valid_elem].
  unfold main.serverStats, main.status_of. simpl. rewrite Hst.
  change (main.update rho env p)
    with (update_list env (rho (main.routesMap (main.store p))) p).
  by rewrite update_list_configMap.
Qed.

Lemma update_success_replaces_cache_witness :
  main.routesMap (main.store both_cached) !! 1%nat = Some rs1_routes.
Proof.
  refine (proj1 (update_success_replaces_cache map_to_list map_to_list
                   both_answer (main.boot two_sources t_2020) 1%nat rs1_routes
                   map_to_list_valid map_to_list_valid _ _ _)).
  - vm_compute. by eexists.
  - vm_compute. discriminate.
  - reflexivity.
Defined.

(** X16.  A backend whose state is UPDATING when a cycle starts is never
    refreshed again: over any number of cycles its cache, its status and
    its recorded states stay what they are, whatever the backends answer.
    No path of [update] leaves the state UPDATING once a cycle finds it. *)
Theorem updating_is_never_left
    (cycles : list (range_order main.Source api.RoutesResponse.t
                    * main.Backends))
    (p : main.Process) (source : main.Source) :
  main.State (main.status_of (main.store p) source) = main.STATE_UPDATING ->
  view source (run cycles p) = view source p
  /\ main.State (main.status_of (main.store (run cycles p)) source)
     = main.STATE_UPDATING.
Proof.
  intros Hs.
  assert (view source (run cycles p) = view source p) as Hview.
  { revert p Hs. induction cycles as [|[rho env] cycles IH]; intros p Hs;
      [done|].
    change (run ((rho, env) :: cycles) p)
      with (run cycles
              (update_list env (rho (main.routesMap (main.store p))) p)).
    pose proof (update_list_updating env
                  (rho (main.routesMap (main.store p))) source p Hs) as Hu.
    rewrite IH; [done|].
    unfold main.status_of.
    replace (main.statusMap
               (main.store
                  (update_list env (rho (main.routesMap (main.store p))) p))
               !! source)
      with (main.statusMap (main.store p) !! source); [done|].
    symmetry. exact (f_equal (fun v => v.1.2) Hu). }
  split; [done|]. unfold main.status_of.
  replace (main.statusMap (main.store (run cycles p)) !! source)
    with (main.statusMap (main.store p) !! source); [done|].
  symmetry. exact (f_equal (fun v => v.1.2) Hview).
Qed.

Lemma updating_is_never_left_witness :
  main.State (main.status_of (main.store (run two_cycles first_stuck)) 1%nat)
  = main.STATE_UPDATING
  /\ main.routesMap (main.store (run two_cycles first_stuck)) !! 1%nat
     = Some main.zero_RoutesResponse.
Proof.
  destruct (updating_is_never_left two_cycles first_stuck 1%nat)
    as [Hview Hs]; [reflexivity|].
  split; [exact Hs|].
  exact (f_equal (fun v => v.1.1) Hview).
Defined.

(** *** The states a finished cycle leaves *)

Lemma run_settled cycles (p : main.Process) (source : main.Source) :
  Forall (fun c => range_valid c.1) cycles ->
  is_Some (main.routesMap (main.store p) !! source) ->
  main.State (main.status_of (main.store p) source) <> main.STATE_UPDATING ->
  is_Some (main.routesMap (main.store (run cycles p)) !! source)
  /\ main.State (main.status_of (main.store (run cycles p)) source)
     <> main.STATE_UPDATING.
Proof.
  revert p. induction cycles as [|[rho env] cycles IH]; intros p Hv Hk Hs;
    [done|].
  apply Forall_cons in Hv as [Hrho Hv]. simpl in Hrho.
  change (run ((rho, env) :: cycles) p)
    with (run cycles (main.update rho env p)).
  destruct (update_view_cases rho env p source Hrho)
    as [[_ [Hc|Hc]]|(_ & _ & t & _ & Hview)];
    [rewrite Hc in Hk; by destruct Hk|done|].
  unfold view in Hview. injection Hview as Hr Hst _.
  apply IH; [done| |].
  - rewrite Hr. destruct (main.AllRoutes (env source)) as [r [e|]];
      [done|by eexists].
  - unfold main.status_of. rewrite Hst. simpl.
    by destruct (refresh_result_cases env source) as [-> | ->].
Qed.

(** X17.  After every finished refresh cycle of a process started by
    [NewRoutesStore], each configured backend is in the state READY when
    its fetch of that cycle succeeded and ERROR when it failed, and
    [Stats] names no other state: never INIT, UPDATING or INVALID. *)
Theorem states_after_a_cycle (config : main.Config) (t0 : time_Time)
    (cycles : list (range_order main.Source api.RoutesResponse.t
                    * main.Backends))
    (rho rho' : range_order main.Source api.RoutesResponse.t)
    (env : main.Backends) :
  Forall (fun c => range_valid c.1) cycles ->
  range_valid rho -> range_valid rho' ->
  let p := main.update rho env (run cycles (main.boot config t0)) in
  (forall source,
     source ∈ configured config ->
     main.State <$> main.statusMap (main.store p) !! source
     = Some (refresh_result env source))
  /\ Forall (fun r =>
               main.RouteServerStats.State r = "READY"
               \/ main.RouteServerStats.State r = "ERROR")
       (main.RouteServers (main.Stats rho' (main.store p))).
Proof.
  intros Hv Hrho Hrho' p.
  assert (forall source,
            source ∈ configured config ->
            main.State <$> main.statusMap (main.store p) !! source
            = Some (refresh_result env source)) as Hstates.
  { intros source Hin.
    apply (elem_of_list_to_set (C:=gset main.Source)) in Hin.
    pose proof (boot_view config t0 source Hin) as Hb.
    pose proof (f_equal (fun v => v.1.1) Hb) as Hr.
    pose proof (f_equal (fun v => v.1.2) Hb) as Hst.
    unfold view in Hr, Hst. simpl in Hr, Hst.
    destruct (run_settled cycles (main.boot config t0) source Hv)
      as [Hk Hs]; [by eexists| |].
    { unfold main.status_of. simpl. by rewrite Hst. }
    destruct (update_view_cases rho env (run cycles (main.boot config t0))
                source Hrho)
      as [[_ [Hc|Hc]]|(_ & _ & t & _ & Hview)];
      [rewrite Hc in Hk; by destruct Hk|done|].
    unfold view in Hview. injection Hview as _ Hst' _.
    unfold p. by rewrite Hst'. }
  split; [exact Hstates|].
  rewrite Stats_RouteServers. apply Forall_fmap, Forall_forall.
  intros [source routes] Hin. simpl.
  rewrite (Hrho' _) in Hin. apply elem_of_map_to_list in Hin.
  assert (source ∈ configured config) as Hc.
  { destruct (update_keys env rho (run cycles (main.boot config t0))
                (configured config) Hrho) as (<- & _).
    - by apply store_keys_run.
    - apply elem_of_dom. by eexists. }
  specialize (Hstates source Hc).
  unfold main.serverStats, main.status_of.
  destruct (main.statusMap (main.store p) !! source) as [st|]; [|done].
  simpl in *. injection Hstates as ->.
  destruct (refresh_result_cases env source) as [-> | ->]; auto.
Qed.

Lemma states_after_a_cycle_witness :
  main.State <$> main.statusMap
                   (main.store (main.update reverse_order first_fails
                                  (run [(map_to_list, both_answer)]
                                     (main.boot two_sources t_2020))))
                   !! 1%nat
  = Some main.STATE_ERROR.
Proof.
  refine (proj1 (states_after_a_cycle two_sources t_2020
                   [(map_to_list, both_answer)] reverse_order map_to_list
                   first_fails _ reverse_order_valid map_to_list_valid)
            1%nat _).
  - repeat constructor. apply map_to_list_valid.
  - unfold configured. simpl. set_solver.
Defined.

(* ===================================================================== *)
(** ** An unknown time zone                                               *)
(* ===================================================================== *)

(** X18.  When the time library does not know the configured time zone,
    [parseApiStatus] returns the zero status and the error of
    [time.LoadLocation] for every payload whose [api] is an object and
    whose [ttl] is a string, but [parseRelativeServerTime] drops the
    error.  So [parseNeighbours] and [parseRoutes] return for every
    payload for which they return under some configuration, clock and
    order of visit, and every uptime and every age they return is the
    time since the zero time at one of the clock reads of the parse,
    whatever the payload says. *)
Theorem unknown_timezone `{TimeLib} (config : birdwatcher.Config)
    (err : error) :
  time_LoadLocation (birdwatcher.Timezone config) = inr err ->
  (forall now v,
     birdwatcher.parseRelativeServerTime now v config
     = time_Since now zero_time)
  /\ (forall rho (clock : nat -> time_Time) bird,
        range_valid rho ->
        (forall rho' (clock' : nat -> time_Time) config',
           range_valid rho' ->
           returns (birdwatcher.parseNeighbours rho' clock' bird config') ->
           returns (birdwatcher.parseNeighbours rho clock bird config))
        /\ (forall ns e n,
              birdwatcher.parseNeighbours rho clock bird config = Ret (ns, e) ->
              n ∈ ns ->
              exists k,
                (k < length ns)%nat
                /\ api.Neighbour.Uptime n = time_Since (clock k) zero_time))
  /\ (forall (clock : nat -> time_Time) bird,
        (forall (clock' : nat -> time_Time) config',
           returns (birdwatcher.parseRoutes clock' bird config') ->
           returns (birdwatcher.parseRoutes clock bird config))
        /\ (forall rs e r,
              birdwatcher.parseRoutes clock bird config = Ret (rs, e) ->
              r ∈ rs ->
              exists k,
                (k < length rs)%nat
                /\ api.Route.Age r = time_Since (clock k) zero_time))
  /\ (forall bird s,
        is_map (index bird "api") = true ->
        index bird "ttl" = VString s ->
        birdwatcher.parseApiStatus bird config
        = Ret (birdwatcher.zero_ApiStatus, Some err)).
Proof.
  intros Hloc.
  assert (forall now v,
            birdwatcher.parseRelativeServerTime now v config
            = time_Since now zero_time) as Hrel.
  { intros now v.
    unfold birdwatcher.parseRelativeServerTime, birdwatcher.parseServerTime.
    destruct v; try done. by rewrite Hloc. }
  split; [exact Hrel|]. split; [|split].
  - intros rho clock bird Hv. split.
    + intros rho' clock' config' Hv' [[ns' e'] Hr'].
      destruct (index bird "protocols") as [| | | | |protocols] eqn:Hb;
        try (unfold birdwatcher.parseNeighbours in Hr'; rewrite Hb in Hr';
             discriminate).
      destruct (parseNeighbours_twice rho' rho clock' clock bird config' config
                  protocols ns' e' Hv' Hv Hb Hr') as (ns & Hr & _).
      by eexists.
    + intros ns e n Hr Hn.
      destruct (index bird "protocols") as [| | | | |protocols] eqn:Hb;
        try (unfold birdwatcher.parseNeighbours in Hr; rewrite Hb in Hr;
             discriminate).
      destruct (parseNeighbours_elem rho clock bird config protocols ns e n
                  Hv Hb Hr Hn) as (Hlen & k & proto & Hk & _ & Hy).
      exists k. split; [by rewrite Hlen|].
      destruct (parseNeighbour_ret _ _ _ _ _ Hy) as (_ & Hre & _).
      pose proof (f_equal api.Neighbour.Uptime Hre) as Hu. simpl in Hu.
      rewrite <- Hu. apply Hrel.
  - intros clock bird. split.
    + intros clock' config' [[rs' e'] Hr'].
      destruct (parseRoutes_inv clock' bird config' rs' e' Hr')
        as (_ & birdRoutes & _ & Hb & _).
      destruct (parseRoutes_twice clock' clock bird config' config birdRoutes
                  rs' e' Hb Hr') as (_ & rs & Hr & _).
      by eexists.
    + intros rs e r Hr Hin.
      destruct (parseRoutes_inv clock bird config rs e Hr)
        as (_ & birdRoutes & _ & Hb & _).
      destruct (parseRoutes_twice clock clock bird config config birdRoutes
                  rs e Hb Hr) as (_ & rs2 & _ & HF).
      apply list_elem_of_lookup_1 in Hin as [i Hi].
      destruct (Forall2_lookup_l _ _ _ _ _ HF Hi) as (r2 & _ & k & Hk & Hre & _).
      exists k. split.
      * rewrite <- (length_fmap (fun r => VObject (api.Route.Details r))),
          (parseRoutes_details clock bird config birdRoutes rs e Hb Hr).
        done.
      * pose proof (f_equal api.Route.Age Hre) as Hu. simpl in Hu.
        rewrite <- Hu. apply Hrel.
  - intros bird s Hm Ht. unfold birdwatcher.parseApiStatus.
    destruct (index bird "api"); try done. simpl.
    unfold birdwatcher.parseServerTime. by rewrite Ht, Hloc.
Qed.

(** With the time zone "Mars/Olympus": the status of a good payload is
    the error, and the two sessions parse with saturated uptimes. *)
Lemma unknown_timezone_witness :
  birdwatcher.parseRelativeServerTime t_2020_1h
    (VString "2020-01-01 00:00:00") mars_config = maxDuration
  /\ birdwatcher.parseApiStatus
       (status_payload api_block (VString "2020-01-01T00:00:00Z")) mars_config
     = Ret (birdwatcher.zero_ApiStatus,
            Some (ErrOther "unknown time zone Mars/Olympus"))
  /\ returns (birdwatcher.parseNeighbours reverse_order (ticking t_2020_1h)
               neighbours_payload mars_config)
  /\ returns (birdwatcher.parseRoutes (ticking t_2020_1h) routes_payload
               mars_config).
Proof.
  destruct (unknown_timezone mars_config
              (ErrOther "unknown time zone Mars/Olympus"))
    as (Hrel & Hns & Hrs & Hapi); [vm_compute; reflexivity|].
  split; [|split; [|split]].
  - rewrite Hrel. reflexivity.
  - apply (Hapi _ "2020-01-01T00:00:00Z"); vm_compute; reflexivity.
  - apply (proj1 (Hns reverse_order (ticking t_2020_1h) neighbours_payload
                    reverse_order_valid)
             map_to_list (at_instant t_2020) utc_config map_to_list_valid).
    vm_compute. by eexists.
  - apply (proj1 (Hrs (ticking t_2020_1h) routes_payload)
             (at_instant t_2020) utc_config).
    vm_compute. by eexists.
Defined.
